(** * The ADK output parser of robot-von-bismarck

    A shallow embedding of [OutputParser] (frontend/server/outputParser.ts):
    the line-oriented parser that turns the text produced by the agent
    service into country responses and analyst updates.

    - [JsString]: JavaScript strings as lists of UTF-16 code units, with the
      string methods the parser calls ([trim], [startsWith], [toLowerCase]).
    - [Json]: JavaScript values and [JSON.parse].
    - [Pattern]: the regular expressions of the class, each read as the
      backtracking matcher it denotes.
    - [Parser]: the class itself, its fields as a record and its methods in
      a state-and-exception monad, and the loop of its caller.
    - the notions the statements use: runs, emitted responses, openings.
    - lemmas on strings, patterns and [JSON.parse], and on how each method
      runs.
    - the properties of the parser, one section for each.
    - the callers ([parseGcpOutput], the handlers of the process manager)
      and [formatMessage] of the display, and further properties of the
      parser and of them. *)

From Stdlib Require Import Ascii String List ZArith NArith Bool Lia.
Import ListNotations.

(* ------------------------------------------------------------------ *)
(** ** JavaScript strings *)

Module JsString.

Local Open Scope N_scope.

(** A string is a sequence of UTF-16 code units. *)
Definition jsstring := list N.

(** Literals of the source, written as Rocq strings. *)
Fixpoint str (s : string) : jsstring :=
  match s with
  | EmptyString => []
  | String a r => N_of_ascii a :: str r
  end.

(** The double quote, which a Rocq literal cannot hold conveniently. *)
Definition dquote : N := 34.

(** [quoted "k"] is the text ["k"], quotes included. *)
Definition quoted (s : string) : jsstring := dquote :: str s ++ [dquote].

(** WhiteSpace and LineTerminator code points of ECMAScript: what
    [String.prototype.trim] strips and what [\s] matches. *)
Definition isWhiteSpace (c : N) : bool :=
  ((9 <=? c) && (c <=? 13)) || (c =? 32) || (c =? 160) || (c =? 5760)
  || ((8192 <=? c) && (c <=? 8202)) || (c =? 8232) || (c =? 8233)
  || (c =? 8239) || (c =? 8287) || (c =? 12288) || (c =? 65279).

(** LineTerminator: what [.] refuses to match. *)
Definition isLineTerminator (c : N) : bool :=
  (c =? 10) || (c =? 13) || (c =? 8232) || (c =? 8233).

Fixpoint trimStart (s : jsstring) : jsstring :=
  match s with
  | [] => []
  | c :: r => if isWhiteSpace c then trimStart r else s
  end.

Definition trimEnd (s : jsstring) : jsstring := rev (trimStart (rev s)).

(** [s.trim()] *)
Definition trim (s : jsstring) : jsstring := trimEnd (trimStart s).

(** Truthiness of a string: [!s] holds of the empty string only. *)
Definition isEmpty (s : jsstring) : bool :=
  match s with [] => true | _ :: _ => false end.

(** [s.startsWith(p)] *)
Fixpoint startsWith (p s : jsstring) : bool :=
  match p, s with
  | [], _ => true
  | _ :: _, [] => false
  | a :: p', c :: s' => (a =? c) && startsWith p' s'
  end.

(** [s === t] on strings. *)
Fixpoint streq (s t : jsstring) : bool :=
  match s, t with
  | [], [] => true
  | a :: s', b :: t' => (a =? b) && streq s' t'
  | _, _ => false
  end.

(** Lower case of one code unit.  Only the ASCII letters are mapped: the
    parser lowers a label to compare it with ASCII aliases, and the one code
    unit outside ASCII whose lower case is a lone ASCII letter is U+212A,
    which lowers to k, a letter no alias contains. *)
Definition lower (c : N) : N :=
  if (65 <=? c) && (c <=? 90) then c + 32 else c.

(** [s.toLowerCase()] *)
Definition toLowerCase (s : jsstring) : jsstring := map lower s.

(** Canonicalize of a regular expression with the [i] flag and without the
    [u] flag: the upper case of the code unit, except that a code unit from
    128 on is never mapped below 128.  Every pattern of the parser is made of
    ASCII characters, against which only the ASCII range can match, so the
    mapping is written for ASCII letters. *)
Definition canonicalize (c : N) : N :=
  if (97 <=? c) && (c <=? 122) then c - 32 else c.

(** Number of occurrences of a code unit: [(s.match(/c/g) || []).length]. *)
Fixpoint count (c : N) (s : jsstring) : nat :=
  match s with
  | [] => O
  | d :: r => if c =? d then S (count c r) else count c r
  end.

End JsString.

Import JsString.

(* ------------------------------------------------------------------ *)
(** ** The patterns of the class *)

Module Pattern.

Local Open Scope N_scope.

(** A literal of the pattern matched at the head of [s] under the [i] flag:
    the text matched and what follows it. *)
Fixpoint lit_ci (p s : jsstring) : option (jsstring * jsstring) :=
  match p, s with
  | [], _ => Some ([], s)
  | _ :: _, [] => None
  | a :: p', c :: s' =>
      if canonicalize c =? canonicalize a then
        match lit_ci p' s' with
        | Some (m, r) => Some (c :: m, r)
        | None => None
        end
      else None
  end.

(** The alternatives of the group [(USA|China|Russia|EU)], in order. *)
Definition names : list jsstring :=
  [str "USA"; str "China"; str "Russia"; str "EU"].

Section Marker.

(** What follows the marker in the pattern, given the text captured by the
    group and the input left after the closing bracket. *)
Variable A : Type.
Variable k : jsstring -> jsstring -> option A.

(** The alternation, with backtracking into the next alternative when the
    rest of the pattern fails. *)
Fixpoint alternatives (alts : list jsstring) (s : jsstring) : option A :=
  match alts with
  | [] => None
  | a :: more =>
      let next := alternatives more s in
      match lit_ci a s with
      | Some (m, c :: r) =>
          if c =? 93 then
            match k m r with
            | Some x => Some x
            | None => next
            end
          else next
      | _ => next
      end
  end.

(** [\[(USA|China|Russia|EU)\]] followed by [k], at the head of [s]. *)
Definition marker_here (s : jsstring) : option A :=
  match s with
  | c :: r => if c =? 91 then alternatives names r else None
  | [] => None
  end.

(** The leftmost match of an unanchored pattern: the text before the match
    and the result of the match. *)
Fixpoint search (s : jsstring) : option (jsstring * A) :=
  match marker_here s with
  | Some x => Some ([], x)
  | None =>
      match s with
      | [] => None
      | c :: r =>
          match search r with
          | Some (before, x) => Some (c :: before, x)
          | None => None
          end
      end
  end.

End Marker.

Arguments alternatives {A} k alts s.
Arguments marker_here {A} k s.
Arguments search {A} k s.

(** The result of [line.match(COUNTRY_PATTERN)] that the parser reads:
    the text before the match, group 1 and the text after the match. *)
Record country_match := {
  cm_before : jsstring;
  cm_name : jsstring;
  cm_after : jsstring
}.

(** [COUNTRY_PATTERN = /\[(USA|China|Russia|EU)\]/i] *)
Definition COUNTRY_PATTERN (line : jsstring) : option country_match :=
  match search (fun m r => Some (m, r)) line with
  | Some (before, (m, r)) =>
      Some {| cm_before := before; cm_name := m; cm_after := r |}
  | None => None
  end.

(** [line.replace(COUNTRY_PATTERN, '')]: the pattern is not global, the
    first match alone is removed. *)
Definition replace_COUNTRY_PATTERN (line : jsstring) : jsstring :=
  match COUNTRY_PATTERN line with
  | Some m => cm_before m ++ cm_after m
  | None => line
  end.

(** Dot-star: the longest run without a line terminator. *)
Fixpoint dot_star (s : jsstring) : jsstring :=
  match s with
  | [] => []
  | c :: r => if isLineTerminator c then [] else c :: dot_star r
  end.

(** The tail of SAID_PATTERN after the marker: white space, [said:], white
    space, then group 2, a dot-star.  Both runs of white space are greedy and
    nothing after them can make the matcher give white space back, since
    [said:] starts with a letter and group 2 accepts the empty text. *)
Definition said_tail (m r : jsstring) : option jsstring :=
  match lit_ci (str "said:") (trimStart r) with
  | Some (_, r') => Some (dot_star (trimStart r'))
  | None => None
  end.

(** SAID_PATTERN, the marker of COUNTRY_PATTERN followed by [said_tail],
    under the [i] flag: group 2 of the leftmost match. *)
Definition SAID_PATTERN (line : jsstring) : option jsstring :=
  match search said_tail line with
  | Some (_, g2) => Some g2
  | None => None
  end.

(** [/^p/i.test(line)] for a literal [p]. *)
Definition test_prefix_ci (p : string) (line : jsstring) : bool :=
  match lit_ci (str p) line with Some _ => true | None => false end.

End Pattern.

Import Pattern.

(* ------------------------------------------------------------------ *)
(** ** JavaScript values and JSON.parse *)

Module Json.

Local Open Scope N_scope.

(** The values the parser handles: [undefined], and what [JSON.parse]
    builds.  A number is kept as the decimal it was written as,
    [mant * 10 ^ expo]; the rounding to a double that JavaScript applies is
    modelled where the parser can observe it, in the test for zero.  An
    object keeps its members in the order of the text, duplicates
    included. *)
#[local] Unset Elimination Schemes.

Inductive value : Type :=
| Undefined
| Null
| Bool (b : bool)
| Number (mant expo : Z)
| Str (s : jsstring)
| Arr (items : list value)
| Obj (members : list (jsstring * value)).

#[local] Set Elimination Schemes.

(** The exceptions the parser can meet. *)
Inductive exn : Type :=
| SyntaxError
| TypeError.

(** A number literal denotes zero as a double when it is zero or closer to
    zero than half the least subnormal, [2 ^ -1075] (the tie rounds to the
    even neighbour, zero). *)
Definition number_is_zero (mant expo : Z) : bool :=
  if (mant =? 0)%Z then true
  else if (0 <=? expo)%Z then false
  else (Z.abs mant * 2 ^ 1075 <=? 10 ^ (- expo))%Z.

(** ToBoolean. *)
Definition truthy (v : value) : bool :=
  match v with
  | Undefined | Null => false
  | Bool b => b
  | Number m e => negb (number_is_zero m e)
  | Str s => negb (isEmpty s)
  | Arr _ | Obj _ => true
  end.

(** The value of the last member named [key]: a later duplicate overwrites
    an earlier one. *)
Fixpoint lookup (key : jsstring) (members : list (jsstring * value))
  : option value :=
  match members with
  | [] => None
  | (k, v) :: more =>
      match lookup key more with
      | Some w => Some w
      | None => if streq k key then Some v else None
      end
  end.

(** [v.key], for a key that names no property of the built-in prototypes
    (none of the four keys the parser reads does): reading a property of
    [undefined] or [null] throws, an object answers with its member, every
    other value with [undefined]. *)
Definition getProp (v : value) (key : jsstring) : exn + value :=
  match v with
  | Undefined | Null => inl TypeError
  | Obj members =>
      match lookup key members with
      | Some w => inr w
      | None => inr Undefined
      end
  | _ => inr Undefined
  end.

(** *** The grammar of JSON *)

Definition is_ws (c : N) : bool :=
  (c =? 32) || (c =? 9) || (c =? 10) || (c =? 13).

Fixpoint skip_ws (s : jsstring) : jsstring :=
  match s with
  | [] => []
  | c :: r => if is_ws c then skip_ws r else s
  end.

Definition is_digit (c : N) : bool := (48 <=? c) && (c <=? 57).

Definition hex_val (c : N) : option N :=
  if is_digit c then Some (c - 48)
  else if (97 <=? c) && (c <=? 102) then Some (c - 87)
  else if (65 <=? c) && (c <=? 70) then Some (c - 55)
  else None.

(** The code unit of a [\uXXXX] escape, given its four digits. *)
Definition hex4 (a b c d : N) : option N :=
  match hex_val a, hex_val b, hex_val c, hex_val d with
  | Some x, Some y, Some z, Some w => Some (((x * 16 + y) * 16 + z) * 16 + w)
  | _, _, _, _ => None
  end.

(** The code unit of a one-letter escape. *)
Definition escape (e : N) : option N :=
  if (e =? 34) || (e =? 92) || (e =? 47) then Some e
  else if e =? 98 then Some 8
  else if e =? 102 then Some 12
  else if e =? 110 then Some 10
  else if e =? 114 then Some 13
  else if e =? 116 then Some 9
  else None.

(** A string, read after its opening quote: its content and the text after
    the closing quote. *)
Fixpoint parse_string (s : jsstring) : option (jsstring * jsstring) :=
  match s with
  | [] => None
  | c :: r =>
      if c =? 34 then Some ([], r)
      else if c =? 92 then
        match r with
        | [] => None
        | e :: r1 =>
            if e =? 117 then
              match r1 with
              | h1 :: h2 :: h3 :: h4 :: r2 =>
                  match hex4 h1 h2 h3 h4, parse_string r2 with
                  | Some u, Some (k, r3) => Some (u :: k, r3)
                  | _, _ => None
                  end
              | _ => None
              end
            else
              match escape e, parse_string r1 with
              | Some u, Some (k, r3) => Some (u :: k, r3)
              | _, _ => None
              end
        end
      else if c <? 32 then None
      else
        match parse_string r with
        | Some (k, r3) => Some (c :: k, r3)
        | None => None
        end
  end.

(** The longest run of digits at the head of [s]. *)
Fixpoint take_digits (s : jsstring) : list N * jsstring :=
  match s with
  | [] => ([], [])
  | c :: r =>
      if is_digit c then let (ds, r') := take_digits r in (c :: ds, r')
      else ([], s)
  end.

(** The value of a run of digits appended to [acc]. *)
Definition digits_val (acc : Z) (ds : list N) : Z :=
  fold_left (fun a d => (10 * a + Z.of_N (d - 48))%Z) ds acc.

(** The integer part: a lone zero, or a run of digits not starting
    with zero. *)
Definition parse_int (s : jsstring) : option (Z * jsstring) :=
  match s with
  | [] => None
  | d :: r =>
      if d =? 48 then Some (0%Z, r)
      else if is_digit d then
        let (ds, r') := take_digits r in Some (digits_val 0 (d :: ds), r')
      else None
  end.

(** The optional fraction after the integer part [m]: the mantissa grown by
    the digits of the fraction, and their number. *)
Definition parse_frac (m : Z) (s : jsstring) : option (Z * Z * jsstring) :=
  match s with
  | c :: r =>
      if c =? 46 then
        match take_digits r with
        | ([], _) => None
        | (ds, r') => Some (digits_val m ds, Z.of_nat (length ds), r')
        end
      else Some (m, 0%Z, s)
  | [] => Some (m, 0%Z, s)
  end.

(** The optional exponent. *)
Definition parse_exp (s : jsstring) : option (Z * jsstring) :=
  match s with
  | c :: r =>
      if (c =? 101) || (c =? 69) then
        let (neg, r1) :=
          match r with
          | g :: r0 =>
              if g =? 45 then (true, r0)
              else if g =? 43 then (false, r0)
              else (false, r)
          | [] => (false, r)
          end in
        match take_digits r1 with
        | ([], _) => None
        | (ds, r') =>
            let e := digits_val 0 ds in
            Some (if neg : bool then (- e)%Z else e, r')
        end
      else Some (0%Z, s)
  | [] => Some (0%Z, s)
  end.

(** A number. *)
Definition parse_number (s : jsstring) : option (value * jsstring) :=
  let (neg, s1) :=
    match s with
    | c :: r => if c =? 45 then (true, r) else (false, s)
    | [] => (false, s)
    end in
  match parse_int s1 with
  | None => None
  | Some (i, s2) =>
      match parse_frac i s2 with
      | None => None
      | Some (m, nfrac, s3) =>
          match parse_exp s3 with
          | None => None
          | Some (e, s4) =>
              Some (Number (if neg : bool then (- m)%Z else m) (e - nfrac), s4)
          end
      end
  end.

(** The literal [p] at the head of [s]. *)
Fixpoint parse_lit (p s : jsstring) : option jsstring :=
  match p, s with
  | [], _ => Some s
  | _ :: _, [] => None
  | a :: p', c :: s' => if a =? c then parse_lit p' s' else None
  end.

(** A value at the head of [s] (no white space before it), the members of
    an object after its opening brace, and the elements of an array after
    its opening bracket, each with the text left.  The three call one
    another on ever shorter texts; [fuel] bounds the depth of the calls. *)
Fixpoint parse_value (fuel : nat) (s : jsstring) {struct fuel}
  : option (value * jsstring) :=
  match fuel with
  | O => None
  | S f =>
      match s with
      | [] => None
      | c :: r =>
          if c =? 123 then
            match skip_ws r with
            | [] => None
            | c' :: r' =>
                if c' =? 125 then Some (Obj [], r')
                else
                  match parse_members f (c' :: r') with
                  | Some (ms, r2) => Some (Obj ms, r2)
                  | None => None
                  end
            end
          else if c =? 91 then
            match skip_ws r with
            | [] => None
            | c' :: r' =>
                if c' =? 93 then Some (Arr [], r')
                else
                  match parse_elements f (c' :: r') with
                  | Some (vs, r2) => Some (Arr vs, r2)
                  | None => None
                  end
            end
          else if c =? 34 then
            match parse_string r with
            | Some (k, r2) => Some (Str k, r2)
            | None => None
            end
          else if c =? 116 then
            match parse_lit (str "rue") r with
            | Some r2 => Some (Bool true, r2)
            | None => None
            end
          else if c =? 102 then
            match parse_lit (str "alse") r with
            | Some r2 => Some (Bool false, r2)
            | None => None
            end
          else if c =? 110 then
            match parse_lit (str "ull") r with
            | Some r2 => Some (Null, r2)
            | None => None
            end
          else parse_number s
      end
  end
with parse_members (fuel : nat) (s : jsstring) {struct fuel}
  : option (list (jsstring * value) * jsstring) :=
  match fuel with
  | O => None
  | S f =>
      match s with
      | [] => None
      | c :: r =>
          if c =? 34 then
            match parse_string r with
            | None => None
            | Some (key, r1) =>
                match skip_ws r1 with
                | [] => None
                | c2 :: r2 =>
                    if c2 =? 58 then
                      match parse_value f (skip_ws r2) with
                      | None => None
                      | Some (v, r3) =>
                          match skip_ws r3 with
                          | [] => None
                          | c4 :: r4 =>
                              if c4 =? 44 then
                                match parse_members f (skip_ws r4) with
                                | Some (ms, r5) => Some ((key, v) :: ms, r5)
                                | None => None
                                end
                              else if c4 =? 125 then Some ([(key, v)], r4)
                              else None
                          end
                      end
                    else None
                end
            end
          else None
      end
  end
with parse_elements (fuel : nat) (s : jsstring) {struct fuel}
  : option (list value * jsstring) :=
  match fuel with
  | O => None
  | S f =>
      match parse_value f s with
      | None => None
      | Some (v, r3) =>
          match skip_ws r3 with
          | [] => None
          | c4 :: r4 =>
              if c4 =? 44 then
                match parse_elements f (skip_ws r4) with
                | Some (vs, r5) => Some (v :: vs, r5)
                | None => None
                end
              else if c4 =? 93 then Some ([v], r4)
              else None
          end
      end
  end.

(** [JSON.parse(text)]: one value between white space, or a SyntaxError.
    The fuel is twice the length of the text, and no text needs more
    ([parse_value_fuel] below): more fuel gives the same result. *)
Definition JSON_parse (text : jsstring) : exn + value :=
  let s := skip_ws text in
  match parse_value (2 * length s) s with
  | Some (v, r) =>
      match skip_ws r with
      | [] => inr v
      | _ :: _ => inl SyntaxError
      end
  | None => inl SyntaxError
  end.

End Json.

Import Json.

(* ------------------------------------------------------------------ *)
(** ** The class OutputParser *)

Module Parser.

Local Open Scope N_scope.

(** [CountryResponse] of types.ts.  The type asks for one of four names in
    [country] and a number in [iteration]; the parser stores what it
    computed, a string and the value of [currentIteration].  [timestamp] is
    the reading of the clock, in milliseconds. *)
Record CountryResponse := {
  country : jsstring;
  message : jsstring;
  iteration : value;
  timestamp : Z
}.

(** The fields of the class. *)
Record OutputParser := {
  jsonBuffer : jsstring;
  inJsonBlock : bool;
  currentResponse : option CountryResponse;
  currentIteration : value
}.

(** The field initialisers: [new OutputParser()]. *)
Definition new_OutputParser : OutputParser :=
  {| jsonBuffer := [];
     inJsonBlock := false;
     currentResponse := None;
     currentIteration := Number 1 0 |}.

(** What [parseLine] returns: null, a country response, or the analyst
    response, which is the parsed object itself. *)
Inductive response : Type :=
| NoResult
| Country (r : CountryResponse)
| Analyst (a : value).

(** *** Methods run on [this] and may throw *)

Inductive outcome (A : Type) : Type :=
| Normal (a : A) (this : OutputParser)
| Throws (e : exn) (this : OutputParser).

Arguments Normal {A} a this.
Arguments Throws {A} e this.

Definition M (A : Type) : Type := OutputParser -> outcome A.

Definition ret {A : Type} (a : A) : M A := fun this => Normal a this.

Definition bind {A B : Type} (m : M A) (f : A -> M B) : M B :=
  fun this =>
    match m this with
    | Normal a this' => f a this'
    | Throws e this' => Throws e this'
    end.

Definition throw {A : Type} (e : exn) : M A := fun this => Throws e this.

(** [try { body } catch (e) { handler }]: the assignments made before the
    exception stay. *)
Definition try_catch {A : Type} (body : M A) (handler : exn -> M A) : M A :=
  fun this =>
    match body this with
    | Normal a this' => Normal a this'
    | Throws e this' => handler e this'
    end.

(** A computation that does not touch [this]. *)
Definition lift {A : Type} (r : exn + A) : M A :=
  match r with
  | inl e => throw e
  | inr a => ret a
  end.

Definition get : M OutputParser := fun this => Normal this this.

Definition set_jsonBuffer (b : jsstring) : M unit :=
  fun this =>
    Normal tt {| jsonBuffer := b;
                 inJsonBlock := inJsonBlock this;
                 currentResponse := currentResponse this;
                 currentIteration := currentIteration this |}.

Definition set_inJsonBlock (b : bool) : M unit :=
  fun this =>
    Normal tt {| jsonBuffer := jsonBuffer this;
                 inJsonBlock := b;
                 currentResponse := currentResponse this;
                 currentIteration := currentIteration this |}.

Definition set_currentResponse (r : option CountryResponse) : M unit :=
  fun this =>
    Normal tt {| jsonBuffer := jsonBuffer this;
                 inJsonBlock := inJsonBlock this;
                 currentResponse := r;
                 currentIteration := currentIteration this |}.

Definition set_currentIteration (v : value) : M unit :=
  fun this =>
    Normal tt {| jsonBuffer := jsonBuffer this;
                 inJsonBlock := inJsonBlock this;
                 currentResponse := currentResponse this;
                 currentIteration := v |}.

Notation "x <- m ;; k" := (bind m (fun x => k))
  (at level 61, m at next level, right associativity).
Notation "m ;;; k" := (bind m (fun _ => k))
  (at level 61, right associativity).

(** *** normalizeCountryName *)

Definition normalizeCountryName (name : jsstring) : jsstring :=
  let normalized := toLowerCase name in
  if streq normalized (str "usa") || streq normalized (str "us")
     || streq normalized (str "united states") then str "USA"
  else if streq normalized (str "china") || streq normalized (str "prc")
  then str "China"
  else if streq normalized (str "russia")
          || streq normalized (str "russian federation") then str "Russia"
  else if streq normalized (str "eu")
          || streq normalized (str "european union") then str "EU"
  else name.

(** *** isSystemMessage *)

Definition systemPatterns : list string :=
  ["Running agent"; "type exit to exit"; "[user]:"; "[system]:";
   "Session"; "Iteration"]%string.

Definition isSystemMessage (line : jsstring) : bool :=
  existsb (fun pattern => test_prefix_ci pattern line) systemPatterns.

(** *** tryParseAnalystJson *)

(** The body of the [try]: [Some parsed] when the function returns the
    parsed object from inside it, [None] when control falls out of the
    block.  The conjunction of the test cuts short at its first falsy
    operand. *)
Definition validateAnalyst : M (option value) :=
  this <- get ;;
  parsed <- lift (JSON_parse (jsonBuffer this)) ;;
  v_iteration <- lift (getProp parsed (str "iteration")) ;;
  match v_iteration with
  | Undefined => ret None
  | _ =>
      v_analysis <- lift (getProp parsed (str "analysis")) ;;
      if truthy v_analysis then
        v_norm_updates <- lift (getProp parsed (str "norm_updates")) ;;
        if truthy v_norm_updates then
          v_reasoning <- lift (getProp parsed (str "reasoning")) ;;
          if truthy v_reasoning then
            set_inJsonBlock false ;;;
            set_jsonBuffer [] ;;;
            ret (Some parsed)
          else ret None
        else ret None
      else ret None
  end.

(** The analyst response, or [Null]. *)
Definition tryParseAnalystJson (line : jsstring) : M value :=
  this <- get ;;
  if startsWith (str "{") line && negb (inJsonBlock this) then
    set_inJsonBlock true ;;;
    set_jsonBuffer line ;;;
    ret Null
  else if inJsonBlock this then
    set_jsonBuffer (jsonBuffer this ++ 10 :: line) ;;;
    this <- get ;;
    let openBraces := count 123 (jsonBuffer this) in
    let closeBraces := count 125 (jsonBuffer this) in
    if Nat.ltb 0 openBraces && Nat.eqb openBraces closeBraces then
      returned <-
        try_catch validateAnalyst
          (fun e =>
             set_inJsonBlock false ;;;
             set_jsonBuffer [] ;;;
             ret None) ;;
      match returned with
      | Some parsed => ret parsed
      | None => ret Null
      end
    else ret Null
  else ret Null.

(** *** tryParseCountryResponse *)

(** [now] is what [new Date()] reads. *)
Definition tryParseCountryResponse (now : Z) (line : jsstring)
  : M (option CountryResponse) :=
  this <- get ;;
  match COUNTRY_PATTERN line with
  | Some countryMatch =>
      let completedResponse := currentResponse this in
      let message :=
        match SAID_PATTERN line with
        | Some group2 => trim group2
        | None => trim (replace_COUNTRY_PATTERN line)
        end in
      set_currentResponse
        (Some {| country := normalizeCountryName (cm_name countryMatch);
                 message := message;
                 iteration := currentIteration this;
                 timestamp := now |}) ;;;
      ret completedResponse
  | None =>
      match currentResponse this with
      | Some r =>
          if negb (isEmpty (trim line)) && negb (inJsonBlock this) then
            if negb (isSystemMessage line) then
              set_currentResponse
                (Some {| country := country r;
                         message := message r ++ 10 :: trim line;
                         iteration := iteration r;
                         timestamp := timestamp r |}) ;;;
              ret None
            else ret None
          else ret None
      | None => ret None
      end
  end.

(** *** parseLine *)

Definition parseLine (now : Z) (line : jsstring) : M response :=
  let trimmedLine := trim line in
  if isEmpty trimmedLine then ret NoResult
  else
    analystResponse <- tryParseAnalystJson trimmedLine ;;
    if truthy analystResponse then
      v_iteration <- lift (getProp analystResponse (str "iteration")) ;;
      set_currentIteration v_iteration ;;;
      ret (Analyst analystResponse)
    else
      countryResponse <- tryParseCountryResponse now line ;;
      match countryResponse with
      | Some r => ret (Country r)
      | None => ret NoResult
      end.

(** *** finalize, reset, getCurrentIteration *)

Definition finalize : M (option CountryResponse) :=
  this <- get ;;
  match currentResponse this with
  | Some response =>
      set_currentResponse None ;;;
      ret (Some response)
  | None => ret None
  end.

Definition reset : M unit :=
  set_jsonBuffer [] ;;;
  set_inJsonBlock false ;;;
  set_currentResponse None ;;;
  set_currentIteration (Number 1 0).

Definition getCurrentIteration : M value :=
  this <- get ;;
  ret (currentIteration this).

(** *** The loop of the caller

    [parseGcpOutput] (server/index.ts) feeds the lines in order, skips the
    blank ones, catches what [parseLine] throws and goes on, and keeps what
    is not null; after the last line it calls [finalize].  It files the
    records in two arrays; here they stay in the one order they were
    returned in.  Each line comes with the reading of the clock at
    its call. *)
Fixpoint parseLines (lines : list (Z * jsstring)) (this : OutputParser)
  : list response * OutputParser :=
  match lines with
  | [] => ([], this)
  | (now, line) :: more =>
      if isEmpty (trim line) then parseLines more this
      else
        match parseLine now line this with
        | Normal NoResult this' => parseLines more this'
        | Normal r this' =>
            let (out, final) := parseLines more this' in (r :: out, final)
        | Throws _ this' => parseLines more this'
        end
  end.

(** The records of a whole output: those of the lines, then the one of
    [finalize] if there is one. *)
Definition parseOutput (lines : list (Z * jsstring)) : list response :=
  let (out, this) := parseLines lines new_OutputParser in
  match finalize this with
  | Normal (Some response) _ => out ++ [Country response]
  | _ => out
  end.

End Parser.

Import Parser.

(* ------------------------------------------------------------------ *)
(** ** Notions of the statements *)

(** *** States and responses *)

(** [this] with another open response. *)
Definition with_currentResponse (r : option CountryResponse)
  (this : OutputParser) : OutputParser :=
  {| jsonBuffer := jsonBuffer this;
     inJsonBlock := inJsonBlock this;
     currentResponse := r;
     currentIteration := currentIteration this |}.

(** [this] with another iteration. *)
Definition with_currentIteration (v : value) (this : OutputParser)
  : OutputParser :=
  {| jsonBuffer := jsonBuffer this;
     inJsonBlock := inJsonBlock this;
     currentResponse := currentResponse this;
     currentIteration := v |}.

(** [this] with the two fields of the JSON block as [reset] leaves them. *)
Definition resetJson (this : OutputParser) : OutputParser :=
  {| jsonBuffer := [];
     inJsonBlock := false;
     currentResponse := currentResponse this;
     currentIteration := currentIteration this |}.

(** The response a marker line opens. *)
Definition opened (now : Z) (line : jsstring) (m : country_match)
  (this : OutputParser) : CountryResponse :=
  {| country := normalizeCountryName (cm_name m);
     message :=
       match SAID_PATTERN line with
       | Some group2 => trim group2
       | None => trim (replace_COUNTRY_PATTERN line)
       end;
     iteration := currentIteration this;
     timestamp := now |}.

(** The open response after a continuation line. *)
Definition continued (line : jsstring) (r : CountryResponse)
  : CountryResponse :=
  {| country := country r;
     message := message r ++ 10%N :: trim line;
     iteration := iteration r;
     timestamp := timestamp r |}.

(** The result is an analyst response. *)
Definition isAnalyst (r : response) : bool :=
  match r with Analyst _ => true | _ => false end.

(** The open response, as a list. *)
Definition pending (this : OutputParser) : list CountryResponse :=
  match currentResponse this with
  | Some r => [r]
  | None => []
  end.

(** What [finalize] returns, as a list. *)
Definition finalized (this : OutputParser) : list CountryResponse :=
  match finalize this with
  | Normal (Some response) _ => [response]
  | _ => []
  end.

(** The four ways a call of [parseLine] can go: on a blank line; on a
    line that completes an analyst response; on a line with a marker; on
    any other line.  [mid] is the parser after [tryParseAnalystJson]. *)
Inductive parseLine_case (now : Z) (line : jsstring) (this : OutputParser)
  : response -> OutputParser -> Prop :=
| PL_blank :
    isEmpty (trim line) = true ->
    parseLine_case now line this NoResult this
| PL_analyst (v w : value) (mid : OutputParser) :
    isEmpty (trim line) = false ->
    tryParseAnalystJson (trim line) this = Normal v mid ->
    currentResponse mid = currentResponse this ->
    currentIteration mid = currentIteration this ->
    truthy v = true ->
    inJsonBlock this = true ->
    getProp v (str "iteration") = inr w ->
    parseLine_case now line this (Analyst v) (with_currentIteration w mid)
| PL_marker (m : country_match) (mid : OutputParser) :
    isEmpty (trim line) = false ->
    tryParseAnalystJson (trim line) this = Normal Null mid ->
    currentResponse mid = currentResponse this ->
    currentIteration mid = currentIteration this ->
    COUNTRY_PATTERN line = Some m ->
    parseLine_case now line this
      match currentResponse this with
      | Some r => Country r
      | None => NoResult
      end
      (with_currentResponse (Some (opened now line m this)) mid)
| PL_text (mid : OutputParser) :
    isEmpty (trim line) = false ->
    tryParseAnalystJson (trim line) this = Normal Null mid ->
    currentResponse mid = currentResponse this ->
    currentIteration mid = currentIteration this ->
    COUNTRY_PATTERN line = None ->
    parseLine_case now line this NoResult
      match currentResponse this with
      | Some r =>
          if negb (inJsonBlock mid) && negb (isSystemMessage line)
          then with_currentResponse (Some (continued line r)) mid
          else mid
      | None => mid
      end.

(** *** Runs *)

(** The lines fed one after the other, with nothing caught in between:
    the results of the calls, or the first exception. *)
Fixpoint feedLines (lines : list (Z * jsstring)) : M (list response) :=
  match lines with
  | [] => ret []
  | (now, line) :: more =>
      r <- parseLine now line ;;
      rs <- feedLines more ;;
      ret (r :: rs)
  end.

(** The results of the calls made while the parser stays in its JSON
    block, up to the call that leaves the block. *)
Fixpoint feedBlock (lines : list (Z * jsstring)) (this : OutputParser)
  : list response :=
  match lines with
  | [] => []
  | (now, line) :: more =>
      match parseLine now line this with
      | Normal r this' =>
          r :: (if inJsonBlock this' then feedBlock more this' else [])
      | Throws _ _ => []
      end
  end.

(** What the caller keeps of a result. *)
Definition kept (r : response) : list response :=
  match r with
  | NoResult => []
  | _ => [r]
  end.

(** The country responses among the records. *)
Fixpoint countries (out : list response) : list CountryResponse :=
  match out with
  | [] => []
  | Country r :: more => r :: countries more
  | _ :: more => countries more
  end.

(** The country responses that reach the caller when [lines] are fed to
    [this]: those [parseLine] returns, then the one of [finalize]. *)
Definition emitted (lines : list (Z * jsstring)) (this : OutputParser)
  : list CountryResponse :=
  countries (fst (parseLines lines this))
  ++ finalized (snd (parseLines lines this)).

(** A call opens a response when its line has a marker and it did not
    return an analyst response. *)
Definition opensTurn (line : jsstring) (r : response) : bool :=
  match COUNTRY_PATTERN line with
  | Some _ => negb (isAnalyst r)
  | None => false
  end.

(** The value of [currentIteration] at each call that opens a response,
    in the order of the calls. *)
Fixpoint openings (lines : list (Z * jsstring)) (this : OutputParser)
  : list value :=
  match lines with
  | [] => []
  | (now, line) :: more =>
      if isEmpty (trim line) then openings more this
      else
        match parseLine now line this with
        | Normal r this' =>
            (if opensTurn line r then [currentIteration this] else [])
            ++ openings more this'
        | Throws _ this' => openings more this'
        end
  end.

(** *** Countries *)

(** The four identifiers of [CountryResponse.country]. *)
Definition canonical : list jsstring :=
  [str "USA"; str "China"; str "Russia"; str "EU"].

(** The country of the response is one of the four. *)
Definition canonicalCountry (r : CountryResponse) : Prop :=
  In (country r) canonical.

(** The ASCII letters. *)
Definition isLetter (c : N) : bool :=
  ((65 <=? c) && (c <=? 90))%N || ((97 <=? c) && (c <=? 122))%N.

(** *** JSON documents *)

(** Every value but a number ends at a character of its own: a closing
    bracket or quote, or the last letter of a literal. *)
Definition notNumber (v : value) : Prop :=
  match v with
  | Number _ _ => False
  | _ => True
  end.

(** The parser is in the block that the document [doc] opened: the buffer
    is the document, alone or followed by lines, of which the first starts
    with a character that is not white space. *)
Definition inBlockOf (doc : jsstring) (this : OutputParser) : Prop :=
  inJsonBlock this = true
  /\ (jsonBuffer this = doc
      \/ exists c y, jsonBuffer this = doc ++ 10%N :: c :: y
                     /\ isWhiteSpace c = false).

(** An analyst response with its four fields, on one line. *)
Definition oneLineUpdate (analysis : string) : jsstring :=
  str "{" ++ quoted "iteration" ++ str ": 1, "
  ++ quoted "analysis" ++ str ": " ++ quoted analysis ++ str ", "
  ++ quoted "norm_updates" ++ str ": {}, "
  ++ quoted "reasoning" ++ str ": {}}".

(** *** Scenario A *)

(** The eight lines of scenario A, with the readings of the clock. *)
Definition scenarioA (n1 n2 n3 n4 n5 n6 n7 n8 : Z) : list (Z * jsstring) :=
  [(n1, str "[USA] said: We condemn this.");
   (n2, str "[China] said: We reject this.");
   (n3, str "{");
   (n4, quoted "iteration" ++ str ": 1,");
   (n5, quoted "analysis" ++ str ": " ++ quoted "test" ++ str ",");
   (n6, quoted "norm_updates" ++ str ": {},");
   (n7, quoted "reasoning" ++ str ": {}");
   (n8, str "}")].

(** The three records of scenario A. *)
Definition scenarioA_USA (now : Z) : CountryResponse :=
  {| country := str "USA"; message := str "We condemn this.";
     iteration := Number 1 0; timestamp := now |}.

Definition scenarioA_China (now : Z) : CountryResponse :=
  {| country := str "China"; message := str "We reject this.";
     iteration := Number 1 0; timestamp := now |}.

Definition scenarioA_update : value :=
  Obj [(str "iteration", Number 1 0);
       (str "analysis", Str (str "test"));
       (str "norm_updates", Obj []);
       (str "reasoning", Obj [])].

(* ------------------------------------------------------------------ *)
(** ** The callers and the display of a message *)

(** *** Lines of a text *)

(** [text.split('\n')]: the pieces between line feeds; a text without a
    line feed is its one piece, the empty text included. *)
Fixpoint split (text : jsstring) : list jsstring :=
  match text with
  | [] => [[]]
  | c :: r =>
      if (c =? 10)%N then [] :: split r
      else
        match split r with
        | piece :: more => (c :: piece) :: more
        | [] => [[c]]
        end
  end.

(** The lines with the readings of the clock: [clock i] is what the clock
    shows when line [i] of the output is parsed. *)
Fixpoint stamp (clock : nat -> Z) (first : nat) (lines : list jsstring)
  : list (Z * jsstring) :=
  match lines with
  | [] => []
  | line :: more => (clock first, line) :: stamp clock (S first) more
  end.

(** *** The handlers of AdkProcessManager

    The handler of the [data] event of stdout feeds the lines of a chunk
    to the parser of the manager, skips the blank ones and passes what is
    not null to the output callback; nothing is caught.  The handler of
    [close] passes what [finalize] returns. *)
Fixpoint onStdoutData (lines : list (Z * jsstring)) : M (list response) :=
  match lines with
  | [] => ret []
  | (now, line) :: more =>
      if isEmpty (trim line) then onStdoutData more
      else
        parsed <- parseLine now line ;;
        rest <- onStdoutData more ;;
        ret (match parsed with
             | NoResult => rest
             | _ => parsed :: rest
             end)
  end.

(** *** parseGcpOutput

    The function from [output.split] on: what comes before it turns the
    answer of the service into the text [output]. *)

(** An element of the two arrays: a record of the parser, or a value taken
    from the output read as one JSON document. *)
Inductive item : Type :=
| FromParser (r : response)
| FromJson (v : value).

(** ['key' in parsed] for an object made by [JSON.parse], and for a key
    that names nothing in the prototype of objects. *)
Definition hasKey (key : jsstring) (v : value) : bool :=
  match v with
  | Obj members => existsb (fun m => streq (fst m) key) members
  | _ => false
  end.

(** The two arrays of the function. *)
Record arrays := {
  countryResponses : list item;
  analystResponses : list item
}.

(** The body of [if (parsed)]: a record with a key [country] goes to the
    first array; otherwise one with the keys [iteration] and
    [norm_updates] goes to the second; any other is left out.  A country
    response is an object with the key [country]. *)
Definition fileParsed (parsed : response) (a : arrays) : arrays :=
  match parsed with
  | NoResult => a
  | Country _ =>
      {| countryResponses := countryResponses a ++ [FromParser parsed];
         analystResponses := analystResponses a |}
  | Analyst v =>
      if hasKey (str "country") v then
        {| countryResponses := countryResponses a ++ [FromParser parsed];
           analystResponses := analystResponses a |}
      else if hasKey (str "iteration") v && hasKey (str "norm_updates") v
      then
        {| countryResponses := countryResponses a;
           analystResponses := analystResponses a ++ [FromParser parsed] |}
      else a
  end.

(** The loop over the lines: blank lines are skipped, and what
    [parseLine] throws is caught, line by line. *)
Fixpoint fileLines (lines : list (Z * jsstring)) (a : arrays)
  (this : OutputParser) : arrays * OutputParser :=
  match lines with
  | [] => (a, this)
  | (now, line) :: more =>
      if isEmpty (trim line) then fileLines more a this
      else
        match parseLine now line this with
        | Normal parsed this' => fileLines more (fileParsed parsed a) this'
        | Throws _ this' => fileLines more a this'
        end
  end.

(** The code points of a string, each as a string: what the spread of a
    string yields.  A high surrogate followed by a low one is one code
    point. *)
Fixpoint codePoints (s : jsstring) : list jsstring :=
  match s with
  | [] => []
  | c :: r =>
      match r with
      | d :: r' =>
          if ((55296 <=? c) && (c <=? 56319)
              && (56320 <=? d) && (d <=? 57343))%N
          then [c; d] :: codePoints r'
          else [c] :: codePoints r
      | [] => [[c]]
      end
  end.

(** [...v]: the elements of an array, the code points of a string; no
    other value made by [JSON.parse] can be iterated. *)
Definition spread (v : value) : exn + list value :=
  match v with
  | Arr items => inr items
  | Str s => inr (map Str (codePoints s))
  | _ => inl TypeError
  end.

(** [if (jsonOutput.key) array.push(...jsonOutput.key)], as the elements to
    push. *)
Definition pushed (jsonOutput : value) (key : jsstring)
  : exn + list item :=
  match getProp jsonOutput key with
  | inl e => inl e
  | inr v =>
      if truthy v then
        match spread v with
        | inl e => inl e
        | inr items => inr (map FromJson items)
        end
      else inr []
  end.

(** The [try] of the function: the whole output read as one document.  An
    exception leaves in the arrays what was pushed before it. *)
Definition structuredOutput (output : jsstring) (a : arrays) : arrays :=
  match JSON_parse output with
  | inl _ => a
  | inr jsonOutput =>
      match pushed jsonOutput (str "country_responses") with
      | inl _ => a
      | inr cs =>
          let a1 := {| countryResponses := countryResponses a ++ cs;
                       analystResponses := analystResponses a |} in
          match pushed jsonOutput (str "analyst_responses") with
          | inl _ => a1
          | inr ans =>
              {| countryResponses := countryResponses a1;
                 analystResponses := analystResponses a1 ++ ans |}
          end
      end
  end.

(** [parseGcpOutput], given the text of the output. *)
Definition parseGcpOutput (clock : nat -> Z) (output : jsstring) : arrays :=
  let lines := split output in
  let (a, parser) :=
    fileLines (stamp clock 0 lines)
      {| countryResponses := []; analystResponses := [] |}
      new_OutputParser in
  let a :=
    match finalize parser with
    | Normal (Some finalResponse) _ =>
        {| countryResponses :=
             countryResponses a ++ [FromParser (Country finalResponse)];
           analystResponses := analystResponses a |}
    | _ => a
    end in
  if Nat.eqb (length (countryResponses a)) 0
     && Nat.eqb (length (analystResponses a)) 0
  then structuredOutput output a
  else a.

(** *** formatMessage

    The function of the components CountryResponse and ChatConversation:
    it replaces by nothing the match, at the start of the message and
    without regard to case, of an opening bracket, a lazy dot-star, a
    closing bracket, white space and an optional [said:] with the white
    space after it. *)

(** The text after the first closing bracket, when no line terminator
    comes before it.  What follows the bracket in the pattern matches
    whatever the text, so the lazy dot-star stops at this bracket. *)
Fixpoint afterBracket (s : jsstring) : option jsstring :=
  match s with
  | [] => None
  | c :: r =>
      if (c =? 93)%N then Some r
      else if isLineTerminator c then None
      else afterBracket r
  end.

Definition formatMessage (message : jsstring) : jsstring :=
  match message with
  | [] => message
  | c :: s =>
      if (c =? 91)%N then
        match afterBracket s with
        | Some r =>
            match lit_ci (str "said:") (trimStart r) with
            | Some (_, r') => trimStart r'
            | None => trimStart r
            end
        | None => message
        end
      else message
  end.

(* ------------------------------------------------------------------ *)
(** ** Notions of the further statements *)

(** The test of [tryParseAnalystJson] on the buffer: there is a brace, and
    as many closing ones as opening ones. *)
Definition balanced (buffer : jsstring) : bool :=
  Nat.ltb 0 (count 123 buffer)
  && Nat.eqb (count 123 buffer) (count 125 buffer).

(** [v.key], with [undefined] where the reading throws. *)
Definition fieldOf (key : string) (v : value) : value :=
  match getProp v (str key) with
  | inr w => w
  | inl _ => Undefined
  end.

(** The test that validates an analyst response: [iteration] is not
    undefined and [analysis], [norm_updates] and [reasoning] are truthy. *)
Definition isAnalystResponse (parsed : value) : bool :=
  match getProp parsed (str "iteration") with
  | inl _ => false
  | inr Undefined => false
  | inr _ =>
      truthy (fieldOf "analysis" parsed)
      && truthy (fieldOf "norm_updates" parsed)
      && truthy (fieldOf "reasoning" parsed)
  end.

(** A line of plain text: not blank, without a marker, not a system
    message, and not the start of a JSON block. *)
Definition plainLine (line : jsstring) : bool :=
  negb (isEmpty (trim line))
  && match COUNTRY_PATTERN line with Some _ => false | None => true end
  && negb (isSystemMessage line)
  && negb (startsWith (str "{") (trim line)).

(** The responses opened while [lines] are fed to [this], as they are at
    their opening, in the order of the calls. *)
Fixpoint openingRecords (lines : list (Z * jsstring)) (this : OutputParser)
  : list CountryResponse :=
  match lines with
  | [] => []
  | (now, line) :: more =>
      if isEmpty (trim line) then openingRecords more this
      else
        match parseLine now line this with
        | Normal r this' =>
            match COUNTRY_PATTERN line with
            | Some m =>
                if isAnalyst r then []
                else [opened now line m this]
            | None => []
            end
            ++ openingRecords more this'
        | Throws _ this' => openingRecords more this'
        end
  end.

(** What of a response is settled when it is opened. *)
Definition turn (r : CountryResponse) : jsstring * value * Z :=
  (country r, iteration r, timestamp r).

(** The iterations of the analyst responses among the records. *)
Fixpoint analystIterations (out : list response) : list value :=
  match out with
  | [] => []
  | Analyst v :: more => fieldOf "iteration" v :: analystIterations more
  | _ :: more => analystIterations more
  end.

(** The last element of a list, or [d]. *)
Definition lastOr (d : value) (l : list value) : value :=
  fold_left (fun _ v => v) l d.

(** The record goes to the array [countryResponses]. *)
Definition filedAsCountry (r : response) : bool :=
  match r with
  | NoResult => false
  | Country _ => true
  | Analyst v => hasKey (str "country") v
  end.

(** The record goes to the array [analystResponses]. *)
Definition filedAsAnalyst (r : response) : bool :=
  match r with
  | Analyst v => negb (hasKey (str "country") v)
  | _ => false
  end.

(** The character can stand in the label of a bracket that
    [formatMessage] removes: it is no closing bracket and no line
    terminator. *)
Definition inLabel (c : N) : bool :=
  negb (c =? 93)%N && negb (isLineTerminator c).

(* ------------------------------------------------------------------ *)
(** ** Strings and patterns *)

(** *** Trimming *)

(** [trimStart] splits a string into white space and the rest. *)
Lemma trimStart_split (s : jsstring) :
  exists p, s = p ++ trimStart s /\ forallb isWhiteSpace p = true.
Proof.
  induction s as [| c s IH]; simpl.
  - exists []. auto.
  - destruct (isWhiteSpace c) eqn:Hc.
    + destruct IH as (p & Hs & Hp). exists (c :: p). simpl.
      rewrite Hc, <- Hs. auto.
    + exists []. auto.
Qed.

(** What [trimStart] leaves starts with a character that is not white
    space. *)
Lemma trimStart_head (s : jsstring) (c : N) (r : jsstring) :
  trimStart s = c :: r -> isWhiteSpace c = false.
Proof.
  induction s as [| d s IH]; simpl; [ discriminate | ].
  destruct (isWhiteSpace d) eqn:Hd; [ exact IH | ].
  intros H. injection H as -> _. exact Hd.
Qed.

(** [trimEnd] splits a string into the rest and white space. *)
Lemma trimEnd_split (s : jsstring) :
  exists p, s = trimEnd s ++ p /\ forallb isWhiteSpace p = true.
Proof.
  unfold trimEnd.
  destruct (trimStart_split (rev s)) as (p & Hs & Hp).
  exists (rev p). split.
  - rewrite <- rev_app_distr, <- Hs, rev_involutive. reflexivity.
  - rewrite forallb_forall in *. intros x Hx. apply Hp.
    now apply in_rev.
Qed.

(** A trimmed string that is not empty starts with a character that is not
    white space. *)
Lemma trim_head (s : jsstring) (c : N) (r : jsstring) :
  trim s = c :: r -> isWhiteSpace c = false.
Proof.
  unfold trim. intros H.
  destruct (trimEnd_split (trimStart s)) as (p & Hs & _).
  rewrite H in Hs. simpl in Hs.
  now apply (trimStart_head s c (r ++ p)).
Qed.

(** A string that trims to nothing is made of white space. *)
Lemma trim_empty (s : jsstring) :
  isEmpty (trim s) = true -> forallb isWhiteSpace s = true.
Proof.
  unfold trim. intros H.
  destruct (trimEnd (trimStart s)) eqn:He; [ | discriminate ].
  destruct (trimEnd_split (trimStart s)) as (p & Hs & Hp).
  destruct (trimStart_split s) as (q & Hq & Hq').
  rewrite He in Hs. simpl in Hs. rewrite Hs in Hq. rewrite Hq.
  rewrite forallb_app, Hp, Hq'. reflexivity.
Qed.

(** A line that starts with a brace is not blank. *)
Lemma startsWith_brace_not_empty (s : jsstring) :
  startsWith (str "{") s = true -> isEmpty s = false.
Proof.
  destruct s; [ discriminate | reflexivity ].
Qed.

(** *** Markers *)

(** A match of a marker starts at an opening bracket. *)
Lemma search_bracket (A : Type) (k : jsstring -> jsstring -> option A)
  (s : jsstring) (before : jsstring) (x : A) :
  search k s = Some (before, x) -> existsb (N.eqb 91) s = true.
Proof.
  revert before.
  induction s as [| c s IH]; intros before;
    cbn [search marker_here existsb].
  - discriminate.
  - rewrite (N.eqb_sym 91 c). destruct (c =? 91)%N; [ reflexivity | ].
    destruct (search k s) as [[b y] |]; [ | discriminate ].
    intros H. injection H as _ ->. now apply (IH b).
Qed.

(** A line with a marker is not blank. *)
Lemma COUNTRY_PATTERN_not_blank (line : jsstring) (m : country_match) :
  COUNTRY_PATTERN line = Some m -> isEmpty (trim line) = false.
Proof.
  unfold COUNTRY_PATTERN. intros H.
  destruct (search _ line) as [[before [g1 r]] |] eqn:Hs; [ | discriminate ].
  apply search_bracket in Hs.
  destruct (isEmpty (trim line)) eqn:He; [ | reflexivity ].
  apply trim_empty in He.
  apply existsb_exists in Hs. destruct Hs as (c & Hin & Hc).
  rewrite forallb_forall in He. specialize (He c Hin).
  apply N.eqb_eq in Hc. subst c. discriminate.
Qed.

(** What matches a letter without regard to case has its lower case. *)
Lemma canonicalize_lower (c a : N) :
  isLetter a = true -> canonicalize c = canonicalize a -> lower c = lower a.
Proof.
  unfold isLetter, canonicalize, lower.
  repeat match goal with
         | |- context [(?x <=? ?y)%N] =>
             destruct (N.leb_spec x y); cbn [andb orb]
         end; intros; try discriminate; lia.
Qed.

(** The text a literal matched is the head of the input. *)
Lemma lit_ci_split (p s m r : jsstring) :
  lit_ci p s = Some (m, r) -> s = m ++ r /\ length m = length p.
Proof.
  revert s m r. induction p as [| a p IH]; intros s m r; cbn [lit_ci].
  - destruct s; intros H; injection H as <- <-; auto.
  - destruct s as [| c s]; [ discriminate | ].
    destruct (canonicalize c =? canonicalize a)%N; [ | discriminate ].
    destruct (lit_ci p s) as [[m' r'] |] eqn:Hl; [ | discriminate ].
    intros H. injection H as <- <-.
    destruct (IH s m' r' Hl) as [-> Hlen]. cbn. auto.
Qed.

(** The text a literal of letters matched is the literal, up to case. *)
Lemma lit_ci_lower (p s m r : jsstring) :
  forallb isLetter p = true ->
  lit_ci p s = Some (m, r) -> toLowerCase m = toLowerCase p.
Proof.
  revert s m r. induction p as [| a p IH]; intros s m r; cbn [lit_ci forallb].
  - destruct s; intros _ H; injection H as <- <-; reflexivity.
  - intros Hp. apply andb_prop in Hp. destruct Hp as [Ha Hp].
    destruct s as [| c s]; [ discriminate | ].
    destruct (canonicalize c =? canonicalize a)%N eqn:Hc; [ | discriminate ].
    destruct (lit_ci p s) as [[m' r'] |] eqn:Hl; [ | discriminate ].
    intros H. injection H as <- <-. cbn.
    apply N.eqb_eq in Hc.
    rewrite (canonicalize_lower c a Ha Hc).
    f_equal. exact (IH s m' r' Hp Hl).
Qed.

(** A match of the alternation is a match of one of the alternatives,
    followed by the closing bracket and by the rest of the pattern. *)
Lemma alternatives_inv (A : Type) (k : jsstring -> jsstring -> option A)
  (alts : list jsstring) (s : jsstring) (x : A) :
  alternatives k alts s = Some x ->
  exists a m r,
    In a alts /\ lit_ci a s = Some (m, 93%N :: r) /\ k m r = Some x.
Proof.
  induction alts as [| a more IH]; cbn [alternatives]; [ discriminate | ].
  intros H.
  assert (Hnext : alternatives k more s = Some x ->
                  exists a0 m r, In a0 (a :: more)
                    /\ lit_ci a0 s = Some (m, 93%N :: r) /\ k m r = Some x).
  { intros Hn. destruct (IH Hn) as (a0 & m & r & Hin & Hl & Hk).
    exists a0, m, r. split; [ now right | auto ]. }
  destruct (lit_ci a s) as [[m [| c r]] |] eqn:Hl; try now apply Hnext.
  destruct (c =? 93)%N eqn:Hc; [ | now apply Hnext ].
  destruct (k m r) as [y |] eqn:Hk; [ | now apply Hnext ].
  injection H as ->. apply N.eqb_eq in Hc. subst c.
  exists a, m, r. split; [ now left | auto ].
Qed.

(** The leftmost match cuts the line in the text before it and the text the
    marker matches. *)
Lemma search_inv (A : Type) (k : jsstring -> jsstring -> option A)
  (s before : jsstring) (x : A) :
  search k s = Some (before, x) ->
  exists s', s = before ++ s' /\ marker_here k s' = Some x.
Proof.
  revert before. induction s as [| c s IH]; intros before; cbn [search].
  - destruct (marker_here k []) eqn:Hm; [ | discriminate ].
    intros H. injection H as <- <-. exists []. auto.
  - destruct (marker_here k (c :: s)) as [y |] eqn:Hm.
    + intros H. injection H as <- <-. exists (c :: s). auto.
    + destruct (search k s) as [[b y] |]; [ | discriminate ].
      intros H. injection H as <- <-.
      destruct (IH b eq_refl) as (s' & -> & Hs'). exists s'. auto.
Qed.

(** What COUNTRY_PATTERN matches: the line is the text before, a bracket,
    one of the four names up to case, a bracket, the text after. *)
Lemma COUNTRY_PATTERN_inv (line : jsstring) (m : country_match) :
  COUNTRY_PATTERN line = Some m ->
  line = cm_before m ++ 91%N :: cm_name m ++ 93%N :: cm_after m
  /\ exists a, In a names /\ toLowerCase (cm_name m) = toLowerCase a.
Proof.
  unfold COUNTRY_PATTERN.
  destruct (search _ line) as [[before [g1 r]] |] eqn:Hs; [ | discriminate ].
  intros H. injection H as <-. cbn [cm_before cm_name cm_after].
  apply search_inv in Hs. destruct Hs as (s' & -> & Hm).
  unfold marker_here in Hm.
  destruct s' as [| c s']; [ discriminate | ].
  destruct (c =? 91)%N eqn:Hc; [ | discriminate ].
  apply N.eqb_eq in Hc. subst c.
  apply alternatives_inv in Hm.
  destruct Hm as (a & m & r' & Hin & Hl & Hk). injection Hk as -> ->.
  destruct (lit_ci_split a s' g1 _ Hl) as [-> _].
  split; [ reflexivity | ].
  exists a. split; [ exact Hin | ].
  apply (lit_ci_lower a _ g1 _) in Hl; [ exact Hl | ].
  destruct Hin as [<- | [<- | [<- | [<- | []]]]]; reflexivity.
Qed.

(** A bracketed name is a marker. *)
Lemma marker_here_name (name post : jsstring) :
  In name names ->
  marker_here (fun m r => Some (m, r)) (91%N :: name ++ 93%N :: post)
  = Some (name, post).
Proof.
  intros [<- | [<- | [<- | [<- | []]]]]; reflexivity.
Qed.

(** Where there is a marker, the search finds one. *)
Lemma search_app (A : Type) (k : jsstring -> jsstring -> option A)
  (pre s : jsstring) (x : A) :
  marker_here k s = Some x ->
  exists before y, search k (pre ++ s) = Some (before, y).
Proof.
  intros Hm. induction pre as [| c pre IH].
  - exists [], x. destruct s; cbn [app search]; now rewrite Hm.
  - cbn [app search].
    destruct (marker_here k (c :: pre ++ s)) as [y |]; [ eauto | ].
    destruct IH as (before & y & ->). eauto.
Qed.

(** No match starts in a text without an opening bracket. *)
Lemma search_skip (A : Type) (k : jsstring -> jsstring -> option A)
  (pre s : jsstring) :
  existsb (N.eqb 91) pre = false ->
  search k (pre ++ s) =
  match search k s with
  | Some (before, x) => Some (pre ++ before, x)
  | None => None
  end.
Proof.
  induction pre as [| c pre IH]; cbn [app existsb].
  - intros _. destruct (search k s) as [[b x] |]; reflexivity.
  - intros H. apply orb_false_iff in H. destruct H as [Hc Hpre].
    cbn [search marker_here]. rewrite N.eqb_sym, Hc, (IH Hpre).
    destruct (search k s) as [[b x] |]; reflexivity.
Qed.

(* ------------------------------------------------------------------ *)
(** ** JSON.parse and the text after a value *)

Lemma skip_ws_length (s : jsstring) : length (skip_ws s) <= length s.
Proof.
  induction s as [| c s IH]; cbn [skip_ws]; [ lia | ].
  destruct (is_ws c); cbn [length]; lia.
Qed.

Lemma skip_ws_app (s t : jsstring) (c : N) (r : jsstring) :
  skip_ws s = c :: r -> skip_ws (s ++ t) = c :: r ++ t.
Proof.
  induction s as [| d s IH]; cbn [skip_ws app]; [ discriminate | ].
  destruct (is_ws d); [ exact IH | ].
  intros H. injection H as <- <-. reflexivity.
Qed.

Lemma skip_ws_nonempty (s : jsstring) : skip_ws s <> [] -> s <> [].
Proof.
  destruct s; [ intros H; now elim H | discriminate ].
Qed.

Lemma skip_ws_app_nonempty (s t : jsstring) :
  skip_ws s <> [] -> skip_ws (s ++ t) = skip_ws s ++ t.
Proof.
  destruct (skip_ws s) as [| c r] eqn:Hs; [ intros H; now elim H | ].
  intros _. now apply skip_ws_app.
Qed.

(** White space followed by a character that is none is skipped up to
    that character. *)
Lemma skip_ws_all (s : jsstring) (c : N) (y : jsstring) :
  skip_ws s = [] -> is_ws c = false -> skip_ws (s ++ c :: y) = c :: y.
Proof.
  intros Hs Hc. induction s as [| d s IH]; cbn [skip_ws app] in *.
  - now rewrite Hc.
  - destruct (is_ws d); [ now apply IH | discriminate ].
Qed.

(** The white space of JSON is white space of JavaScript. *)
Lemma is_ws_isWhiteSpace (c : N) : isWhiteSpace c = false -> is_ws c = false.
Proof.
  unfold isWhiteSpace, is_ws. intros H.
  repeat (apply orb_false_iff in H; destruct H as [H ?]).
  apply andb_false_iff in H.
  repeat match goal with
         | E : (_ =? _)%N = false |- _ => apply N.eqb_neq in E
         end.
  repeat match goal with
         | |- context [(?x =? ?y)%N] => destruct (N.eqb_spec x y)
         end; cbn [orb]; try reflexivity; subst; try congruence;
    destruct H as [H | H]; apply N.leb_gt in H; lia.
Qed.

Lemma parse_value_nil (f : nat) : parse_value f [] = None.
Proof. destruct f; reflexivity. Qed.

Lemma parse_members_nil (f : nat) : parse_members f [] = None.
Proof. destruct f; reflexivity. Qed.

Lemma parse_elements_nil (f : nat) : parse_elements f [] = None.
Proof. destruct f; [ reflexivity | ]. cbn. now rewrite parse_value_nil. Qed.

(** A string value ends at its closing quote: the text after it is not
    looked at. *)
Lemma parse_string_spec (n : nat) :
  forall s k r,
    length s <= n ->
    parse_string s = Some (k, r) ->
    length r < length s
    /\ forall t, parse_string (s ++ t) = Some (k, r ++ t).
Proof.
  induction n as [| n IH]; intros s k r Hn.
  { destruct s; [ discriminate | cbn in Hn; lia ]. }
  destruct s as [| c s]; [ discriminate | ].
  cbn [parse_string app]. cbn [length] in Hn.
  destruct (c =? 34)%N.
  { intros H. injection H as <- <-. cbn [length]. split; [ lia | auto ]. }
  destruct (c =? 92)%N.
  { destruct s as [| e s]; [ discriminate | ]. cbn [app length] in *.
    destruct (e =? 117)%N.
    - destruct s as [| h1 [| h2 [| h3 [| h4 s]]]]; try discriminate.
      cbn [app length] in *.
      destruct (hex4 h1 h2 h3 h4) as [u |]; [ | discriminate ].
      destruct (parse_string s) as [[k' r'] |] eqn:Hs; [ | discriminate ].
      intros H. injection H as <- <-.
      destruct (IH s k' r' ltac:(lia) Hs) as [Hlen Happ].
      split; [ lia | ]. intros t. now rewrite Happ.
    - destruct (escape e) as [u |]; [ | discriminate ].
      destruct (parse_string s) as [[k' r'] |] eqn:Hs; [ | discriminate ].
      intros H. injection H as <- <-.
      destruct (IH s k' r' ltac:(lia) Hs) as [Hlen Happ].
      split; [ lia | ]. intros t. now rewrite Happ. }
  destruct (c <? 32)%N; [ discriminate | ].
  destruct (parse_string s) as [[k' r'] |] eqn:Hs; [ | discriminate ].
  intros H. injection H as <- <-.
  destruct (IH s k' r' ltac:(lia) Hs) as [Hlen Happ].
  cbn [length]. split; [ lia | ]. intros t. now rewrite Happ.
Qed.

(** A literal is read without looking further. *)
Lemma parse_lit_spec (p : jsstring) :
  forall s r,
    parse_lit p s = Some r ->
    length r <= length s
    /\ forall t, parse_lit p (s ++ t) = Some (r ++ t).
Proof.
  induction p as [| a p IH]; intros s r; cbn [parse_lit].
  - intros H. injection H as <-. split; [ lia | auto ].
  - destruct s as [| c s]; [ discriminate | ]. cbn [app length].
    destruct (a =? c)%N; [ | discriminate ].
    intros H. destruct (IH s r H) as [Hlen Happ]. split; [ lia | exact Happ ].
Qed.

(** A run of digits followed by something ends there, whatever comes
    after that. *)
Lemma take_digits_spec (s : jsstring) :
  forall ds r,
    take_digits s = (ds, r) ->
    s = ds ++ r
    /\ (r <> [] -> forall t, take_digits (s ++ t) = (ds, r ++ t)).
Proof.
  induction s as [| c s IH]; intros ds r; cbn [take_digits app].
  - intros H. injection H as <- <-. split; [ reflexivity | ].
    intros Hr. now elim Hr.
  - destruct (is_digit c).
    + destruct (take_digits s) as [ds' r'] eqn:Hs.
      intros H. injection H as <- <-.
      destruct (IH ds' r' eq_refl) as [-> Happ].
      split; [ reflexivity | ].
      intros Hr t. now rewrite (Happ Hr t).
    + intros H. injection H as <- <-. split; [ reflexivity | auto ].
Qed.

Lemma parse_int_spec (s : jsstring) (i : Z) (r : jsstring) :
  parse_int s = Some (i, r) ->
  length r < length s
  /\ (r <> [] -> forall t, parse_int (s ++ t) = Some (i, r ++ t)).
Proof.
  unfold parse_int. destruct s as [| d s]; [ discriminate | ].
  cbn [app length].
  destruct (d =? 48)%N.
  { intros H. injection H as <- <-. split; [ lia | auto ]. }
  destruct (is_digit d); [ | discriminate ].
  destruct (take_digits s) as [ds r'] eqn:Hs.
  intros H. injection H as <- <-.
  destruct (take_digits_spec s ds r' Hs) as [-> Happ].
  split; [ rewrite length_app; lia | ].
  intros Hr t. now rewrite (Happ Hr t).
Qed.

Lemma parse_frac_spec (m : Z) (s : jsstring) (m' n : Z) (r : jsstring) :
  parse_frac m s = Some (m', n, r) ->
  length r <= length s
  /\ (r <> [] -> forall t, parse_frac m (s ++ t) = Some (m', n, r ++ t)).
Proof.
  unfold parse_frac. destruct s as [| c s].
  { intros H. injection H as <- <- <-. split; [ lia | ].
    intros Hr. now elim Hr. }
  cbn [app length].
  destruct (c =? 46)%N.
  - destruct (take_digits s) as [[| d ds] r'] eqn:Hs; [ discriminate | ].
    intros H. injection H as <- <- <-.
    destruct (take_digits_spec s _ r' Hs) as [-> Happ].
    split; [ rewrite length_app; lia | ].
    intros Hr t. now rewrite (Happ Hr t).
  - intros H. injection H as <- <- <-. split; [ cbn [length]; lia | auto ].
Qed.

Lemma parse_exp_spec (s : jsstring) (e : Z) (r : jsstring) :
  parse_exp s = Some (e, r) ->
  length r <= length s
  /\ (r <> [] -> forall t, parse_exp (s ++ t) = Some (e, r ++ t)).
Proof.
  unfold parse_exp. destruct s as [| c s].
  { intros H. injection H as <- <-. split; [ lia | ].
    intros Hr. now elim Hr. }
  cbn [app length].
  destruct ((c =? 101)%N || (c =? 69)%N).
  2: { intros H. injection H as <- <-. split; [ cbn [length]; lia | auto ]. }
  destruct s as [| g s]; [ discriminate | ]. cbn [app length].
  destruct (g =? 45)%N; [ | destruct (g =? 43)%N ]; cbv beta iota zeta;
    match goal with
    | |- context [take_digits ?s1] =>
        destruct (take_digits s1) as [[| d ds] r'] eqn:Hs; [ discriminate | ];
        intros H; injection H as <- <-;
        destruct (take_digits_spec s1 _ r' Hs) as [Heq Happ];
        (split;
         [ apply (f_equal (@length N)) in Heq;
           rewrite length_app in Heq; cbn [length] in *; lia
         | intros Hr t; change (g :: s ++ t) with ((g :: s) ++ t);
           now rewrite (Happ Hr t) ])
    end.
Qed.

(** A number followed by something ends there, whatever comes after
    that; and what [parse_number] reads is a number. *)
Lemma parse_number_spec (s : jsstring) (v : value) (r : jsstring) :
  parse_number s = Some (v, r) ->
  length r < length s
  /\ (exists m e, v = Number m e)
  /\ (r <> [] -> forall t, parse_number (s ++ t) = Some (v, r ++ t)).
Proof.
  unfold parse_number.
  assert (Hbody : forall (neg : bool) (s1 : jsstring),
             match parse_int s1 with
             | None => None
             | Some (i, s2) =>
                 match parse_frac i s2 with
                 | None => None
                 | Some (m, nfrac, s3) =>
                     match parse_exp s3 with
                     | None => None
                     | Some (e, s4) =>
                         Some (Number (if neg then (- m)%Z else m)
                                 (e - nfrac), s4)
                     end
                 end
             end = Some (v, r) ->
             length r < length s1
             /\ (exists m e, v = Number m e)
             /\ (r <> [] ->
                 forall t,
                   match parse_int (s1 ++ t) with
                   | None => None
                   | Some (i, s2) =>
                       match parse_frac i s2 with
                       | None => None
                       | Some (m, nfrac, s3) =>
                           match parse_exp s3 with
                           | None => None
                           | Some (e, s4) =>
                               Some (Number (if neg then (- m)%Z else m)
                                       (e - nfrac), s4)
                           end
                       end
                   end = Some (v, r ++ t))).
  { intros neg s1.
    destruct (parse_int s1) as [[i s2] |] eqn:Hi; [ | discriminate ].
    destruct (parse_frac i s2) as [[[m nfrac] s3] |] eqn:Hf;
      [ | discriminate ].
    destruct (parse_exp s3) as [[e s4] |] eqn:He; [ | discriminate ].
    intros H. injection H as <- <-.
    destruct (parse_int_spec s1 i s2 Hi) as [Hl1 Ha1].
    destruct (parse_frac_spec i s2 m nfrac s3 Hf) as [Hl2 Ha2].
    destruct (parse_exp_spec s3 e s4 He) as [Hl3 Ha3].
    split; [ lia | ]. split; [ eauto | ].
    intros Hr t.
    assert (H3 : s3 <> []) by (destruct s4, s3; cbn in *; try lia; congruence).
    assert (H2 : s2 <> []) by (destruct s3, s2; cbn in *; try lia; congruence).
    now rewrite (Ha1 H2 t), (Ha2 H3 t), (Ha3 Hr t). }
  destruct s as [| c s]; [ intros H; now apply (Hbody false []) in H | ].
  cbn [app].
  destruct (c =? 45)%N.
  - intros H. destruct (Hbody true s H) as (Hl & Hv & Ha).
    cbn [length]. split; [ lia | ]. split; assumption.
  - intros H. destruct (Hbody false (c :: s) H) as (Hl & Hv & Ha).
    split; [ exact Hl | ]. split; assumption.
Qed.

(** What the three readers consume and what they look at.  Each leaves
    less text than it was given.  Members and elements end at a closing
    bracket and look no further; so does a value, unless it is a number,
    which ends where something else follows. *)
Lemma parse_value_spec (f : nat) :
  (forall s v r,
      parse_value f s = Some (v, r) ->
      length r < length s
      /\ (r <> [] \/ notNumber v ->
          forall t, parse_value f (s ++ t) = Some (v, r ++ t)))
  /\ (forall s ms r,
         parse_members f s = Some (ms, r) ->
         length r < length s
         /\ forall t, parse_members f (s ++ t) = Some (ms, r ++ t))
  /\ (forall s vs r,
         parse_elements f s = Some (vs, r) ->
         length r < length s
         /\ forall t, parse_elements f (s ++ t) = Some (vs, r ++ t)).
Proof.
  induction f as [| f (IHv & IHm & IHe)].
  { repeat split; discriminate. }
  split; [ | split ].
  - (* a value *)
    intros s v r. destruct s as [| c s]; [ discriminate | ].
    cbn [parse_value app].
    destruct (c =? 123)%N.
    { destruct (skip_ws s) as [| c' r'] eqn:Hws; [ discriminate | ].
      pose proof (skip_ws_length s) as Hlen. rewrite Hws in Hlen.
      cbn [length] in *.
      destruct (c' =? 125)%N eqn:Hc.
      - intros H. injection H as <- <-. split; [ lia | ].
        intros _ t. now rewrite (skip_ws_app s t c' r' Hws), Hc.
      - destruct (parse_members f (c' :: r')) as [[ms r2] |] eqn:Hm;
          [ | discriminate ].
        intros H. injection H as <- <-.
        destruct (IHm _ _ _ Hm) as [Hl Ha]. cbn [length] in Hl.
        split; [ lia | ].
        intros _ t. rewrite (skip_ws_app s t c' r' Hws), Hc.
        change (c' :: r' ++ t) with ((c' :: r') ++ t). now rewrite Ha. }
    destruct (c =? 91)%N.
    { destruct (skip_ws s) as [| c' r'] eqn:Hws; [ discriminate | ].
      pose proof (skip_ws_length s) as Hlen. rewrite Hws in Hlen.
      cbn [length] in *.
      destruct (c' =? 93)%N eqn:Hc.
      - intros H. injection H as <- <-. split; [ lia | ].
        intros _ t. now rewrite (skip_ws_app s t c' r' Hws), Hc.
      - destruct (parse_elements f (c' :: r')) as [[vs r2] |] eqn:Hm;
          [ | discriminate ].
        intros H. injection H as <- <-.
        destruct (IHe _ _ _ Hm) as [Hl Ha]. cbn [length] in Hl.
        split; [ lia | ].
        intros _ t. rewrite (skip_ws_app s t c' r' Hws), Hc.
        change (c' :: r' ++ t) with ((c' :: r') ++ t). now rewrite Ha. }
    destruct (c =? 34)%N.
    { destruct (parse_string s) as [[k r2] |] eqn:Hs; [ | discriminate ].
      intros H. injection H as <- <-.
      destruct (parse_string_spec (length s) s k r2 (le_n _) Hs) as [Hl Ha].
      cbn [length]. split; [ lia | ]. intros _ t. now rewrite Ha. }
    destruct (c =? 116)%N.
    { destruct (parse_lit (str "rue") s) as [r2 |] eqn:Hs; [ | discriminate ].
      intros H. injection H as <- <-.
      destruct (parse_lit_spec (str "rue") s r2 Hs) as [Hl Ha].
      cbn [length]. split; [ lia | ]. intros _ t. now rewrite Ha. }
    destruct (c =? 102)%N.
    { destruct (parse_lit (str "alse") s) as [r2 |] eqn:Hs; [ | discriminate ].
      intros H. injection H as <- <-.
      destruct (parse_lit_spec (str "alse") s r2 Hs) as [Hl Ha].
      cbn [length]. split; [ lia | ]. intros _ t. now rewrite Ha. }
    destruct (c =? 110)%N.
    { destruct (parse_lit (str "ull") s) as [r2 |] eqn:Hs; [ | discriminate ].
      intros H. injection H as <- <-.
      destruct (parse_lit_spec (str "ull") s r2 Hs) as [Hl Ha].
      cbn [length]. split; [ lia | ]. intros _ t. now rewrite Ha. }
    intros H.
    destruct (parse_number_spec (c :: s) v r H) as (Hl & (m & e & ->) & Ha).
    split; [ exact Hl | ].
    intros [Hr | []] t. exact (Ha Hr t).
  - (* the members of an object *)
    intros s ms r. destruct s as [| c s]; [ discriminate | ].
    cbn [parse_members app].
    destruct (c =? 34)%N; [ | discriminate ].
    destruct (parse_string s) as [[key r1] |] eqn:Hs; [ | discriminate ].
    destruct (parse_string_spec (length s) s key r1 (le_n _) Hs) as [Hl1 Ha1].
    destruct (skip_ws r1) as [| c2 r2] eqn:Hws1; [ discriminate | ].
    pose proof (skip_ws_length r1) as Hl2. rewrite Hws1 in Hl2.
    destruct (c2 =? 58)%N eqn:Hc2; [ | discriminate ].
    destruct (parse_value f (skip_ws r2)) as [[v r3] |] eqn:Hv;
      [ | discriminate ].
    destruct (IHv _ _ _ Hv) as [Hl3 Ha3].
    pose proof (skip_ws_length r2) as Hl3'.
    assert (Hne2 : skip_ws r2 <> []).
    { intros E. rewrite E, parse_value_nil in Hv. discriminate. }
    destruct (skip_ws r3) as [| c4 r4] eqn:Hws3; [ discriminate | ].
    pose proof (skip_ws_length r3) as Hl4. rewrite Hws3 in Hl4.
    assert (Hne3 : r3 <> []) by (destruct r3; [ discriminate | discriminate ]).
    cbn [length] in *.
    assert (Hhead : forall t,
               parse_string (s ++ t) = Some (key, r1 ++ t)
               /\ skip_ws (r1 ++ t) = c2 :: r2 ++ t
               /\ parse_value f (skip_ws (r2 ++ t)) = Some (v, r3 ++ t)
               /\ skip_ws (r3 ++ t) = c4 :: r4 ++ t).
    { intros t. split; [ apply Ha1 | ].
      split; [ now apply skip_ws_app | ].
      split; [ | now apply skip_ws_app ].
      rewrite (skip_ws_app_nonempty r2 t Hne2). apply Ha3. now left. }
    destruct (c4 =? 44)%N eqn:Hc4.
    + destruct (parse_members f (skip_ws r4)) as [[ms' r5] |] eqn:Hm;
        [ | discriminate ].
      intros H. injection H as <- <-.
      destruct (IHm _ _ _ Hm) as [Hl5 Ha5].
      pose proof (skip_ws_length r4) as Hl5'.
      assert (Hne4 : skip_ws r4 <> []).
      { intros E. rewrite E, parse_members_nil in Hm. discriminate. }
      split; [ lia | ]. intros t.
      destruct (Hhead t) as (-> & -> & -> & ->).
      rewrite Hc2, Hc4, (skip_ws_app_nonempty r4 t Hne4), Ha5. reflexivity.
    + destruct (c4 =? 125)%N eqn:Hc4'; [ | discriminate ].
      intros H. injection H as <- <-.
      split; [ lia | ]. intros t.
      destruct (Hhead t) as (-> & -> & -> & ->).
      now rewrite Hc2, Hc4, Hc4'.
  - (* the elements of an array *)
    intros s vs r. cbn [parse_elements].
    destruct (parse_value f s) as [[v r3] |] eqn:Hv; [ | discriminate ].
    destruct (IHv _ _ _ Hv) as [Hl3 Ha3].
    destruct (skip_ws r3) as [| c4 r4] eqn:Hws3; [ discriminate | ].
    pose proof (skip_ws_length r3) as Hl4. rewrite Hws3 in Hl4.
    assert (Hne3 : r3 <> []) by (destruct r3; [ discriminate | discriminate ]).
    cbn [length] in *.
    assert (Hhead : forall t,
               parse_value f (s ++ t) = Some (v, r3 ++ t)
               /\ skip_ws (r3 ++ t) = c4 :: r4 ++ t).
    { intros t. split; [ apply Ha3; now left | now apply skip_ws_app ]. }
    destruct (c4 =? 44)%N eqn:Hc4.
    + destruct (parse_elements f (skip_ws r4)) as [[vs' r5] |] eqn:Hm;
        [ | discriminate ].
      intros H. injection H as <- <-.
      destruct (IHe _ _ _ Hm) as [Hl5 Ha5].
      pose proof (skip_ws_length r4) as Hl5'.
      assert (Hne4 : skip_ws r4 <> []).
      { intros E. rewrite E, parse_elements_nil in Hm. discriminate. }
      split; [ lia | ]. intros t.
      destruct (Hhead t) as (-> & ->).
      rewrite Hc4, (skip_ws_app_nonempty r4 t Hne4), Ha5. reflexivity.
    + destruct (c4 =? 93)%N eqn:Hc4'; [ | discriminate ].
      intros H. injection H as <- <-.
      split; [ lia | ]. intros t.
      destruct (Hhead t) as (-> & ->).
      now rewrite Hc4, Hc4'.
Qed.

(** More fuel reads the same value. *)
Lemma parse_value_mono (f : nat) :
  forall f',
    f <= f' ->
    (forall s x, parse_value f s = Some x -> parse_value f' s = Some x)
    /\ (forall s x, parse_members f s = Some x -> parse_members f' s = Some x)
    /\ (forall s x,
           parse_elements f s = Some x -> parse_elements f' s = Some x).
Proof.
  induction f as [| f IH]; intros f' Hle.
  { repeat split; discriminate. }
  destruct f' as [| f']; [ lia | ].
  destruct (IH f' ltac:(lia)) as (IHv & IHm & IHe).
  split; [ | split ].
  - intros s x. destruct s as [| c s]; [ discriminate | ].
    cbn [parse_value].
    destruct (c =? 123)%N.
    { destruct (skip_ws s) as [| c' r']; [ discriminate | ].
      destruct (c' =? 125)%N; [ auto | ].
      destruct (parse_members f (c' :: r')) as [[ms r2] |] eqn:Hm;
        [ | discriminate ].
      now rewrite (IHm _ _ Hm). }
    destruct (c =? 91)%N.
    { destruct (skip_ws s) as [| c' r']; [ discriminate | ].
      destruct (c' =? 93)%N; [ auto | ].
      destruct (parse_elements f (c' :: r')) as [[vs r2] |] eqn:Hm;
        [ | discriminate ].
      now rewrite (IHe _ _ Hm). }
    auto.
  - intros s x. destruct s as [| c s]; [ discriminate | ].
    cbn [parse_members].
    destruct (c =? 34)%N; [ | discriminate ].
    destruct (parse_string s) as [[key r1] |]; [ | discriminate ].
    destruct (skip_ws r1) as [| c2 r2]; [ discriminate | ].
    destruct (c2 =? 58)%N; [ | discriminate ].
    destruct (parse_value f (skip_ws r2)) as [[v r3] |] eqn:Hv;
      [ | discriminate ].
    rewrite (IHv _ _ Hv).
    destruct (skip_ws r3) as [| c4 r4]; [ discriminate | ].
    destruct (c4 =? 44)%N; [ | auto ].
    destruct (parse_members f (skip_ws r4)) as [[ms r5] |] eqn:Hm;
      [ | discriminate ].
    now rewrite (IHm _ _ Hm).
  - intros s x. cbn [parse_elements].
    destruct (parse_value f s) as [[v r3] |] eqn:Hv; [ | discriminate ].
    rewrite (IHv _ _ Hv).
    destruct (skip_ws r3) as [| c4 r4]; [ discriminate | ].
    destruct (c4 =? 44)%N; [ | auto ].
    destruct (parse_elements f (skip_ws r4)) as [[vs r5] |] eqn:Hm;
      [ | discriminate ].
    now rewrite (IHe _ _ Hm).
Qed.

(** Twice the length of the text is fuel enough: with more the readers
    return the same, a value or a failure. *)
Lemma parse_value_fuel (f : nat) :
  forall f',
    f <= f' ->
    (forall s, 2 * length s <= f -> parse_value f' s = parse_value f s)
    /\ (forall s, 2 * length s <= f -> parse_members f' s = parse_members f s)
    /\ (forall s,
           2 * length s + 1 <= f -> parse_elements f' s = parse_elements f s).
Proof.
  induction f as [| f IH]; intros f' Hle.
  { split; [ | split ]; intros s Hs.
    - destruct s; [ | cbn in Hs; lia ].
      now rewrite !parse_value_nil.
    - destruct s; [ | cbn in Hs; lia ].
      now rewrite !parse_members_nil.
    - lia. }
  destruct f' as [| f']; [ lia | ].
  destruct (IH f' ltac:(lia)) as (IHv & IHm & IHe).
  split; [ | split ].
  - intros s Hs. destruct s as [| c s]; [ reflexivity | ].
    cbn [parse_value]. cbn [length] in Hs.
    pose proof (skip_ws_length s) as Hws.
    destruct (c =? 123)%N.
    { destruct (skip_ws s) as [| c' r']; [ reflexivity | ].
      destruct (c' =? 125)%N; [ reflexivity | ].
      rewrite IHm; [ reflexivity | cbn [length] in *; lia ]. }
    destruct (c =? 91)%N.
    { destruct (skip_ws s) as [| c' r']; [ reflexivity | ].
      destruct (c' =? 93)%N; [ reflexivity | ].
      rewrite IHe; [ reflexivity | cbn [length] in *; lia ]. }
    reflexivity.
  - intros s Hs. destruct s as [| c s]; [ reflexivity | ].
    cbn [parse_members]. cbn [length] in Hs.
    destruct (c =? 34)%N; [ | reflexivity ].
    destruct (parse_string s) as [[key r1] |] eqn:Hk; [ | reflexivity ].
    destruct (parse_string_spec (length s) s key r1 (le_n _) Hk) as [Hl1 _].
    pose proof (skip_ws_length r1) as Hl2.
    destruct (skip_ws r1) as [| c2 r2]; [ reflexivity | ].
    destruct (c2 =? 58)%N; [ | reflexivity ].
    pose proof (skip_ws_length r2) as Hl3. cbn [length] in *.
    rewrite IHv by lia.
    destruct (parse_value f (skip_ws r2)) as [[v r3] |] eqn:Hv;
      [ | reflexivity ].
    destruct (proj1 (parse_value_spec f) _ _ _ Hv) as [Hl4 _].
    pose proof (skip_ws_length r3) as Hl5.
    destruct (skip_ws r3) as [| c4 r4]; [ reflexivity | ].
    destruct (c4 =? 44)%N; [ | reflexivity ].
    pose proof (skip_ws_length r4) as Hl6. cbn [length] in *.
    rewrite IHm by lia. reflexivity.
  - intros s Hs. cbn [parse_elements].
    rewrite IHv by lia.
    destruct (parse_value f s) as [[v r3] |] eqn:Hv; [ | reflexivity ].
    destruct (proj1 (parse_value_spec f) _ _ _ Hv) as [Hl4 _].
    pose proof (skip_ws_length r3) as Hl5.
    destruct (skip_ws r3) as [| c4 r4]; [ reflexivity | ].
    destruct (c4 =? 44)%N; [ | reflexivity ].
    pose proof (skip_ws_length r4) as Hl6. cbn [length] in *.
    rewrite IHe by lia. reflexivity.
Qed.

(** [JSON.parse] does not depend on its fuel: any fuel from twice the
    length of the text on gives its result. *)
Lemma JSON_parse_fuel (text : jsstring) (f : nat) :
  2 * length (skip_ws text) <= f ->
  JSON_parse text =
  match parse_value f (skip_ws text) with
  | Some (v, r) =>
      match skip_ws r with
      | [] => inr v
      | _ :: _ => inl SyntaxError
      end
  | None => inl SyntaxError
  end.
Proof.
  intros Hf. unfold JSON_parse.
  now rewrite (proj1 (parse_value_fuel (2 * length (skip_ws text)) f Hf)
                 (skip_ws text) (le_n _)).
Qed.

(** What starts with a brace is read as an object. *)
Lemma parse_value_brace (f : nat) (s : jsstring) (v : value) (r : jsstring) :
  parse_value f (123%N :: s) = Some (v, r) -> notNumber v.
Proof.
  destruct f as [| f]; [ discriminate | ].
  cbn [parse_value]. rewrite N.eqb_refl.
  destruct (skip_ws s) as [| c' r']; [ discriminate | ].
  destruct (c' =? 125)%N.
  - intros H. injection H as <- _. exact I.
  - destruct (parse_members f (c' :: r')) as [[ms r2] |]; [ | discriminate ].
    intros H. injection H as <- _. exact I.
Qed.

(** A text that starts with a brace and parses, followed on the next line
    by a character that is not white space, does not parse: what follows
    an object is not part of it. *)
Lemma JSON_parse_trailing (text : jsstring) (v : value) (c : N)
  (y : jsstring) :
  startsWith (str "{") text = true ->
  JSON_parse text = inr v ->
  is_ws c = false ->
  JSON_parse (text ++ 10%N :: c :: y) = inl SyntaxError.
Proof.
  intros Hbrace.
  destruct text as [| b text]; [ discriminate | ].
  cbn [startsWith str] in Hbrace. apply andb_prop in Hbrace.
  destruct Hbrace as [Hb _]. apply N.eqb_eq in Hb. cbn in Hb. subst b.
  assert (Hskip : skip_ws (123%N :: text) = 123%N :: text) by reflexivity.
  unfold JSON_parse at 1. rewrite Hskip.
  destruct (parse_value (2 * length (123%N :: text)) (123%N :: text))
    as [[v' r] |] eqn:Hv; [ | discriminate ].
  destruct (skip_ws r) eqn:Hr; [ | discriminate ].
  intros H Hc. injection H as ->.
  set (t := 10%N :: c :: y).
  destruct (proj1 (parse_value_spec _) _ _ _ Hv) as [_ Happ].
  rewrite (JSON_parse_fuel ((123%N :: text) ++ t)
             (2 * length (skip_ws ((123%N :: text) ++ t))) (le_n _)).
  change (skip_ws ((123%N :: text) ++ t)) with ((123%N :: text) ++ t).
  assert (Hfuel : 2 * length (123%N :: text)
                  <= 2 * length ((123%N :: text) ++ t))
    by (rewrite length_app; lia).
  rewrite (proj1 (parse_value_mono _ _ Hfuel) _ (v, r ++ t)).
  - change (r ++ t) with (r ++ [10%N] ++ c :: y). rewrite app_assoc.
    rewrite (skip_ws_all (r ++ [10%N]) c y); [ reflexivity | | exact Hc ].
    clear - Hr. induction r as [| d r IH]; cbn [skip_ws app] in *.
    + reflexivity.
    + destruct (is_ws d); [ auto | discriminate ].
  - apply Happ. right. exact (parse_value_brace _ _ _ _ Hv).
Qed.

(* ------------------------------------------------------------------ *)
(** ** How the methods run *)

(** Steps of the monad and projections of the fields, and nothing else:
    the literals of the source stay as written. *)
Ltac msimpl :=
  cbv beta iota zeta delta
      [bind ret get lift throw try_catch set_jsonBuffer set_inJsonBlock
       set_currentResponse set_currentIteration] in *;
  cbn [jsonBuffer inJsonBlock currentResponse currentIteration country
       message iteration timestamp negb andb orb] in *.

(** A truthy value has properties to read. *)
Lemma truthy_getProp (v : value) (key : jsstring) :
  truthy v = true -> exists w, getProp v key = inr w.
Proof.
  destruct v; simpl; try discriminate; intros _; eauto.
  destruct (lookup key members); eauto.
Qed.

(** The four outcomes of [validateAnalyst]: it returns the parsed object
    and leaves the block, or falls out of the test and touches nothing, or
    throws and touches nothing. *)
Lemma validateAnalyst_cases (this : OutputParser) :
  (exists v w,
      JSON_parse (jsonBuffer this) = inr v
      /\ getProp v (str "iteration") = inr w /\ w <> Undefined
      /\ truthy v = true
      /\ validateAnalyst this =
         Normal (Some v)
           {| jsonBuffer := [];
              inJsonBlock := false;
              currentResponse := currentResponse this;
              currentIteration := currentIteration this |})
  \/ (exists v, JSON_parse (jsonBuffer this) = inr v
                /\ validateAnalyst this = Normal None this)
  \/ (exists e, validateAnalyst this = Throws e this).
Proof.
  unfold validateAnalyst. msimpl.
  destruct (JSON_parse (jsonBuffer this)) as [e | v] eqn:Hparse; msimpl.
  - right; right; eauto.
  - destruct (getProp v (str "iteration")) as [e | w] eqn:Hit; msimpl.
    + right; right; eauto.
    + assert (Hobj : w <> Undefined -> truthy v = true).
      { intros Hw; destruct v; simpl in Hit; try discriminate;
          try reflexivity; injection Hit as <-; now elim Hw. }
      destruct w; try (now right; left; eauto);
        (destruct (truthy_getProp v (str "analysis")) as [a Ha];
         [ apply Hobj; discriminate | ];
         destruct (truthy_getProp v (str "norm_updates")) as [n Hn];
         [ apply Hobj; discriminate | ];
         destruct (truthy_getProp v (str "reasoning")) as [r Hr];
         [ apply Hobj; discriminate | ];
         rewrite Ha, Hn, Hr; msimpl;
         destruct (truthy a); msimpl; [ | now right; left; eauto ];
         destruct (truthy n); msimpl; [ | now right; left; eauto ];
         destruct (truthy r); msimpl; [ | now right; left; eauto ];
         left; eexists; eexists; repeat split; eauto;
         solve [ discriminate | apply Hobj; discriminate ]).
Qed.

(** [tryParseAnalystJson] returns normally, and touches neither the open
    response nor the iteration.  What it returns is null, or the object it
    parsed from the buffer with the line appended, in which case the block
    is closed. *)
Lemma tryParseAnalystJson_spec (line : jsstring) (this : OutputParser) :
  exists v this',
    tryParseAnalystJson line this = Normal v this'
    /\ currentResponse this' = currentResponse this
    /\ currentIteration this' = currentIteration this
    /\ (v = Null
        \/ (truthy v = true
            /\ inJsonBlock this = true
            /\ JSON_parse (jsonBuffer this ++ 10%N :: line) = inr v
            /\ (exists w, getProp v (str "iteration") = inr w
                          /\ w <> Undefined)
            /\ inJsonBlock this' = false
            /\ jsonBuffer this' = [])).
Proof.
  unfold tryParseAnalystJson. msimpl.
  destruct (startsWith (str "{") line && negb (inJsonBlock this)); msimpl.
  { eexists; eexists; repeat split; auto. }
  destruct (inJsonBlock this) eqn:Hin; msimpl.
  2: { eexists; eexists; repeat split; auto. }
  match goal with
  | |- context [if ?c then _ else _] => destruct c
  end; msimpl.
  2: { eexists; eexists; repeat split; auto. }
  match goal with
  | |- context [validateAnalyst ?s] =>
      destruct (validateAnalyst_cases s)
        as [(v & w & Hp & Hw & Hu & Ht & Hv) | [(v & Hp & Hv) | (e & Hv)]];
      rewrite Hv; msimpl
  end.
  - eexists; eexists; repeat split; eauto.
    right; repeat split; eauto.
  - eexists; eexists; repeat split; auto.
  - eexists; eexists; repeat split; auto.
Qed.

(** Outside a JSON block [tryParseAnalystJson] returns null; it enters a
    block when the line starts with a brace. *)
Lemma tryParseAnalystJson_outside (line : jsstring) (this : OutputParser) :
  inJsonBlock this = false ->
  tryParseAnalystJson line this =
  Normal Null
    (if startsWith (str "{") line
     then {| jsonBuffer := line;
             inJsonBlock := true;
             currentResponse := currentResponse this;
             currentIteration := currentIteration this |}
     else this).
Proof.
  intros Hout. unfold tryParseAnalystJson. msimpl. rewrite Hout.
  destruct (startsWith (str "{") line); reflexivity.
Qed.

(** Inside a block, a line after which the buffer does not parse returns
    null: the buffer is dropped and the block left when the braces
    balance, and the line is kept in the buffer when they do not. *)
Lemma tryParseAnalystJson_inside_failure (line : jsstring)
  (this : OutputParser) (e : exn) :
  inJsonBlock this = true ->
  JSON_parse (jsonBuffer this ++ 10%N :: line) = inl e ->
  tryParseAnalystJson line this =
  Normal Null
    (if Nat.ltb 0 (count 123 (jsonBuffer this ++ 10%N :: line))
        && Nat.eqb (count 123 (jsonBuffer this ++ 10%N :: line))
             (count 125 (jsonBuffer this ++ 10%N :: line))
     then resetJson this
     else {| jsonBuffer := jsonBuffer this ++ 10%N :: line;
             inJsonBlock := true;
             currentResponse := currentResponse this;
             currentIteration := currentIteration this |}).
Proof.
  intros Hin Hparse. unfold tryParseAnalystJson. msimpl.
  rewrite Hin, andb_false_r. cbn [negb].
  match goal with
  | |- context [if ?c then _ else _] => destruct c
  end; [ | now rewrite Hin ].
  unfold validateAnalyst. msimpl. rewrite Hparse. reflexivity.
Qed.

(** A line with a marker closes the open response and opens one, whatever
    the state of the JSON block. *)
Lemma tryParseCountryResponse_marker (now : Z) (line : jsstring)
  (m : country_match) (this : OutputParser) :
  COUNTRY_PATTERN line = Some m ->
  tryParseCountryResponse now line this =
  Normal (currentResponse this)
    (with_currentResponse (Some (opened now line m this)) this).
Proof.
  intros Hm. unfold tryParseCountryResponse. msimpl. rewrite Hm. reflexivity.
Qed.

(** A line without a marker returns nothing; it is appended to the open
    response when there is one, the parser is outside a JSON block and the
    line is not a system message. *)
Lemma tryParseCountryResponse_no_marker (now : Z) (line : jsstring)
  (this : OutputParser) :
  COUNTRY_PATTERN line = None ->
  tryParseCountryResponse now line this =
  Normal None
    match currentResponse this with
    | Some r =>
        if negb (isEmpty (trim line)) && negb (inJsonBlock this)
           && negb (isSystemMessage line)
        then with_currentResponse (Some (continued line r)) this
        else this
    | None => this
    end.
Proof.
  intros Hm. unfold tryParseCountryResponse. msimpl. rewrite Hm.
  destruct (currentResponse this) as [r |]; [ | reflexivity ].
  destruct (isEmpty (trim line)), (inJsonBlock this),
    (isSystemMessage line); reflexivity.
Qed.

(** [tryParseCountryResponse] returns normally and leaves the fields of
    the JSON block. *)
Lemma tryParseCountryResponse_json (now : Z) (line : jsstring)
  (this : OutputParser) :
  exists r this',
    tryParseCountryResponse now line this = Normal r this'
    /\ jsonBuffer this' = jsonBuffer this
    /\ inJsonBlock this' = inJsonBlock this.
Proof.
  destruct (COUNTRY_PATTERN line) as [m |] eqn:Hm.
  - rewrite (tryParseCountryResponse_marker now line m this Hm). eauto.
  - rewrite (tryParseCountryResponse_no_marker now line this Hm).
    eexists; eexists; split; [ reflexivity | ].
    destruct (currentResponse this); [ | auto ].
    destruct (negb (isEmpty (trim line)) && negb (inJsonBlock this)
              && negb (isSystemMessage line)); auto.
Qed.

(** The label of a marker normalizes to one of the four identifiers. *)
Lemma normalizeCountryName_marker (line : jsstring) (m : country_match) :
  COUNTRY_PATTERN line = Some m ->
  In (normalizeCountryName (cm_name m)) canonical.
Proof.
  intros H. apply COUNTRY_PATTERN_inv in H. destruct H as (_ & a & Hin & Hl).
  unfold normalizeCountryName. rewrite Hl.
  destruct Hin as [<- | [<- | [<- | [<- | []]]]]; cbn; auto.
Qed.

Lemma parseLine_blank (now : Z) (line : jsstring) (this : OutputParser) :
  isEmpty (trim line) = true -> parseLine now line this = Normal NoResult this.
Proof.
  intros H. unfold parseLine. rewrite H. reflexivity.
Qed.

(** When the line completes an analyst response, [parseLine] records its
    iteration, returns it, and does not look for a country. *)
Lemma parseLine_analyst (now : Z) (line : jsstring) (this mid : OutputParser)
  (v w : value) :
  isEmpty (trim line) = false ->
  tryParseAnalystJson (trim line) this = Normal v mid ->
  truthy v = true ->
  getProp v (str "iteration") = inr w ->
  parseLine now line this = Normal (Analyst v) (with_currentIteration w mid).
Proof.
  intros He Ha Ht Hw. unfold parseLine. rewrite He. msimpl.
  rewrite Ha, Ht, Hw. reflexivity.
Qed.

(** Otherwise the line, untrimmed, goes to [tryParseCountryResponse]. *)
Lemma parseLine_country (now : Z) (line : jsstring) (this mid : OutputParser)
  (v : value) :
  isEmpty (trim line) = false ->
  tryParseAnalystJson (trim line) this = Normal v mid ->
  truthy v = false ->
  parseLine now line this =
  match tryParseCountryResponse now line mid with
  | Normal (Some r) this' => Normal (Country r) this'
  | Normal None this' => Normal NoResult this'
  | Throws e this' => Throws e this'
  end.
Proof.
  intros He Ha Ht. unfold parseLine. rewrite He. msimpl.
  rewrite Ha, Ht.
  destruct (tryParseCountryResponse now line mid) as [[r |] t | e t];
    reflexivity.
Qed.

(** [finalize] returns the open response and forgets it. *)
Lemma finalize_spec (this : OutputParser) :
  finalize this =
  Normal (currentResponse this) (with_currentResponse None this)
  \/ (currentResponse this = None /\ finalize this = Normal None this).
Proof.
  unfold finalize. msimpl.
  destruct (currentResponse this); [ left | right ]; auto.
Qed.

(** [parseLine] returns normally, in one of these ways. *)
Lemma parseLine_cases (now : Z) (line : jsstring) (this : OutputParser) :
  exists r this',
    parseLine now line this = Normal r this'
    /\ parseLine_case now line this r this'.
Proof.
  destruct (isEmpty (trim line)) eqn:He.
  { exists NoResult, this. split.
    - now apply parseLine_blank.
    - now constructor. }
  destruct (tryParseAnalystJson_spec (trim line) this)
    as (v & mid & Ha & Hr & Hi & [-> | (Ht & Hin & _ & (w & Hw & _) & _)]).
  - rewrite (parseLine_country now line this mid Null He Ha eq_refl).
    destruct (COUNTRY_PATTERN line) as [m |] eqn:Hm.
    + rewrite (tryParseCountryResponse_marker now line m mid Hm).
      assert (Ho : opened now line m mid = opened now line m this)
        by (unfold opened; now rewrite Hi).
      rewrite Ho, Hr.
      pose proof (PL_marker now line this m mid He Ha Hr Hi Hm) as Hcase.
      destruct (currentResponse this);
        eexists; eexists; (split; [ reflexivity | exact Hcase ]).
    + rewrite (tryParseCountryResponse_no_marker now line mid Hm).
      eexists; eexists; split; [ reflexivity | ].
      rewrite Hr, He. cbn [negb andb].
      now apply PL_text.
  - rewrite (parseLine_analyst now line this mid v w He Ha Ht Hw).
    eexists; eexists; split; [ reflexivity | ].
    now apply PL_analyst.
Qed.

(** One turn of the loop of the caller. *)
Lemma parseLines_cons (now : Z) (line : jsstring)
  (more : list (Z * jsstring)) (this : OutputParser) :
  parseLines ((now, line) :: more) this =
  if isEmpty (trim line) then parseLines more this
  else
    match parseLine now line this with
    | Normal r this' =>
        (kept r ++ fst (parseLines more this'),
         snd (parseLines more this'))
    | Throws _ this' => parseLines more this'
    end.
Proof.
  cbn [parseLines].
  destruct (isEmpty (trim line)); [ reflexivity | ].
  destruct (parseLine now line this) as [[| r | a] this' | e this'];
    cbn [kept app]; destruct (parseLines more this'); reflexivity.
Qed.

Lemma countries_app (a b : list response) :
  countries (a ++ b) = countries a ++ countries b.
Proof.
  induction a as [| [| r | v] a IH]; simpl; rewrite ?IH; reflexivity.
Qed.

Lemma finalized_pending (this : OutputParser) : finalized this = pending this.
Proof.
  unfold finalized, pending, finalize. msimpl.
  destruct (currentResponse this); reflexivity.
Qed.

(* ------------------------------------------------------------------ *)
(** ** A marker inside a JSON block *)

(** Claim C1 fails on the code.  A new parser is fed a line of China and
    an opening brace; it is then inside a JSON block with the response of
    China open.  The line "[USA] said: B" that follows is appended to the
    buffer, and also closes the response of China, which is returned, and
    opens a response of the USA: the test on [inJsonBlock] guards the
    continuation branch of [tryParseCountryResponse] only. *)
Theorem marker_inside_json_block_opens_turn :
  let china := {| country := str "China"; message := str "A";
                  iteration := Number 1 0; timestamp := 1%Z |} in
  let usa := {| country := str "USA"; message := str "B";
                iteration := Number 1 0; timestamp := 3%Z |} in
  let this2 := {| jsonBuffer := str "{";
                  inJsonBlock := true;
                  currentResponse := Some china;
                  currentIteration := Number 1 0 |} in
  feedLines [(1%Z, str "[China] said: A"); (2%Z, str "{")] new_OutputParser
  = Normal [NoResult; NoResult] this2
  /\ parseLine 3%Z (str "[USA] said: B") this2
     = Normal (Country china)
         {| jsonBuffer := str "{" ++ 10%N :: str "[USA] said: B";
            inJsonBlock := true;
            currentResponse := Some usa;
            currentIteration := Number 1 0 |}.
Proof.
  split; vm_compute; reflexivity.
Qed.

(* ------------------------------------------------------------------ *)
(** ** The start of a JSON block and the open response *)




(* ------------------------------------------------------------------ *)
(** ** A JSON block without the required fields *)

(** Claim C3 fails on the code.  The block "{", "foo": 1, "}" reaches
    brace balance and parses, and has none of the four fields.  The parser
    returns nothing, and it neither clears the buffer nor leaves the
    block: the two assignments are made in the [catch] only.  After a
    block that does not parse they are made. *)
Theorem missing_fields_leave_block_open :
  let block := str "{" ++ 10%N :: quoted "foo" ++ str ": 1" ++ 10%N :: str "}"
  in
  JSON_parse block = inr (Obj [(str "foo", Number 1 0)])
  /\ count 123 block = count 125 block
  /\ feedLines [(1%Z, str "{"); (2%Z, quoted "foo" ++ str ": 1");
                (3%Z, str "}")] new_OutputParser
     = Normal [NoResult; NoResult; NoResult]
         {| jsonBuffer := block;
            inJsonBlock := true;
            currentResponse := None;
            currentIteration := Number 1 0 |}
  /\ feedLines [(1%Z, str "{"); (2%Z, str "not valid json");
                (3%Z, str "}")] new_OutputParser
     = Normal [NoResult; NoResult; NoResult]
         {| jsonBuffer := [];
            inJsonBlock := false;
            currentResponse := None;
            currentIteration := Number 1 0 |}.
Proof.
  repeat split; vm_compute; reflexivity.
Qed.

(* ------------------------------------------------------------------ *)
(** ** No exception, and recovery from a malformed block *)

(** Claim C4.  [parseLine] and [finalize] return normally on every line and
    in every state: no exception reaches the caller.  Fed to a parser that
    is outside a JSON block, the lines "{", "not valid json", "}" return
    nothing three times, no analyst response among them, and leave the
    buffer empty and the parser outside a block, so that every later line
    is processed as by the same parser with its JSON state reset. *)
Theorem parseLine_total_and_recovers :
  (forall now line this,
      exists r this', parseLine now line this = Normal r this')
  /\ (forall this, exists r this', finalize this = Normal r this')
  /\ (forall n1 n2 n3 this,
         inJsonBlock this = false ->
         exists this3,
           feedLines [(n1, str "{"); (n2, str "not valid json");
                      (n3, str "}")] this
           = Normal [NoResult; NoResult; NoResult] this3
           /\ jsonBuffer this3 = []
           /\ inJsonBlock this3 = false
           /\ this3 = resetJson this3
           /\ forall later,
               feedLines later this3 = feedLines later (resetJson this3)).
Proof.
  split; [ | split ].
  - intros now line this.
    destruct (parseLine_cases now line this) as (r & this' & H & _). eauto.
  - intros this.
    destruct (finalize_spec this) as [H | [_ H]]; rewrite H; eauto.
  - intros n1 n2 n3 [buf blk cur it] Hblk. simpl in Hblk. subst blk.
    destruct cur as [r |]; eexists;
      (split; [ vm_compute; reflexivity | ]);
      repeat split; intros; reflexivity.
Qed.

(** The claim at a new parser. *)
Lemma parseLine_total_and_recovers_witness :
  inJsonBlock new_OutputParser = false
  /\ exists this3,
      feedLines [(1%Z, str "{"); (2%Z, str "not valid json");
                 (3%Z, str "}")] new_OutputParser
      = Normal [NoResult; NoResult; NoResult] this3
      /\ jsonBuffer this3 = []
      /\ inJsonBlock this3 = false
      /\ this3 = resetJson this3
      /\ forall later,
          feedLines later this3 = feedLines later (resetJson this3).
Proof.
  split; [ reflexivity | ].
  apply (proj2 (proj2 parseLine_total_and_recovers) 1%Z 2%Z 3%Z
           new_OutputParser).
  reflexivity.
Defined.

(* ------------------------------------------------------------------ *)
(** ** Aliases at the line *)




(* ------------------------------------------------------------------ *)
(** ** The open response *)

(** Claim C6.  The parser holds at most one open response, the field
    [currentResponse]; and a call of [parseLine] made while a response [r]
    is open either returns [r], having opened the response of the marker of
    the line in its place, or keeps [r] open, as it was or with the line
    appended.  An open response is never replaced without being returned. *)
Theorem open_response_returned_when_replaced (now : Z) (line : jsstring)
  (this : OutputParser) (r : CountryResponse) :
  currentResponse this = Some r ->
  exists res this',
    parseLine now line this = Normal res this'
    /\ ((res = Country r
         /\ exists m, COUNTRY_PATTERN line = Some m
                      /\ currentResponse this' = Some (opened now line m this))
        \/ (res <> Country r
            /\ (currentResponse this' = Some r
                \/ currentResponse this' = Some (continued line r)))
           /\ (forall m, COUNTRY_PATTERN line = Some m -> isAnalyst res = true)).
Proof.
  intros Hopen.
  destruct (parseLine_cases now line this) as (res & this' & Hrun & Hcase).
  exists res, this'. split; [ exact Hrun | ].
  destruct Hcase as [He | v w mid He Ha Hr Hi Ht Hin Hw
                    | m mid He Ha Hr Hi Hm | mid He Ha Hr Hi Hm].
  - right. repeat split; try discriminate; auto.
    intros m Hm. apply COUNTRY_PATTERN_not_blank in Hm. congruence.
  - right. repeat split; try discriminate; auto.
    left. cbn. congruence.
  - left. rewrite Hopen. split; [ reflexivity | ].
    exists m. split; [ exact Hm | reflexivity ].
  - right. rewrite Hopen. repeat split; try discriminate.
    + destruct (negb (inJsonBlock mid) && negb (isSystemMessage line));
        cbn; [ right; reflexivity | left; congruence ].
    + intros m Hm'. congruence.
Qed.

(** The claim at a parser that holds a response of the USA, fed a line of
    China. *)
Lemma open_response_returned_when_replaced_witness :
  let r := {| country := str "USA"; message := str "A";
              iteration := Number 1 0; timestamp := 1%Z |} in
  let this := with_currentResponse (Some r) new_OutputParser in
  let line := str "[China] said: B" in
  currentResponse this = Some r
  /\ exists res this',
      parseLine 2%Z line this = Normal res this'
      /\ ((res = Country r
           /\ exists m, COUNTRY_PATTERN line = Some m
                        /\ currentResponse this'
                           = Some (opened 2%Z line m this))
          \/ (res <> Country r
              /\ (currentResponse this' = Some r
                  \/ currentResponse this' = Some (continued line r)))
             /\ (forall m,
                    COUNTRY_PATTERN line = Some m -> isAnalyst res = true)).
Proof.
  intros r this line.
  split; [ reflexivity | ].
  apply (open_response_returned_when_replaced 2%Z line this r).
  reflexivity.
Defined.

(* ------------------------------------------------------------------ *)
(** ** The iteration of a response *)

(** The iterations of the emitted responses are, one for one and in order,
    the iteration of the response open at the start and the values of
    [currentIteration] at the openings. *)
Lemma emitted_iterations (lines : list (Z * jsstring)) :
  forall this,
    map iteration (emitted lines this) =
    map iteration (pending this) ++ openings lines this.
Proof.
  unfold emitted.
  induction lines as [| [now line] more IH]; intros this.
  - cbn. rewrite finalized_pending, app_nil_r. reflexivity.
  - rewrite parseLines_cons. cbn [openings].
    destruct (isEmpty (trim line)) eqn:Hblank; [ apply IH | ].
    destruct (parseLine_cases now line this) as (r & this' & Hrun & Hcase).
    rewrite Hrun. cbn [fst snd].
    rewrite countries_app, <- app_assoc, map_app, IH.
    rewrite !app_assoc. f_equal. unfold opensTurn.
    destruct Hcase as [He | v w mid He Ha Hr Hi Ht Hin Hw
                      | m mid He Ha Hr Hi Hm | mid He Ha Hr Hi Hm].
    + congruence.
    + unfold pending. cbn. rewrite Hr.
      destruct (COUNTRY_PATTERN line); cbn; now rewrite app_nil_r.
    + rewrite Hm. unfold pending. cbn.
      destruct (currentResponse this); reflexivity.
    + rewrite Hm. unfold pending. cbn [kept countries map app].
      rewrite app_nil_r.
      destruct (currentResponse this) as [r0 |] eqn:Hc.
      * destruct (negb (inJsonBlock mid) && negb (isSystemMessage line));
          [ reflexivity | now rewrite Hr ].
      * now rewrite Hr.
Qed.

(** A call that returns no analyst response leaves [currentIteration]. *)
Lemma parseLine_keeps_iteration (now : Z) (line : jsstring)
  (this this' : OutputParser) (r : response) :
  parseLine now line this = Normal r this' ->
  isAnalyst r = false ->
  currentIteration this' = currentIteration this.
Proof.
  intros Hrun Hr.
  destruct (parseLine_cases now line this) as (r1 & this1 & Hrun1 & Hcase).
  rewrite Hrun in Hrun1. injection Hrun1 as <- <-.
  destruct Hcase as [He | v w mid He Ha Hc Hi Ht Hin Hw
                    | m mid He Ha Hc Hi Hm | mid He Ha Hc Hi Hm].
  - reflexivity.
  - discriminate.
  - exact Hi.
  - destruct (currentResponse this); [ | exact Hi ].
    destruct (negb (inJsonBlock mid) && negb (isSystemMessage line));
      exact Hi.
Qed.

(** As long as no analyst response is returned, every opening happens at
    the iteration the run started with. *)
Lemma openings_without_analyst (lines : list (Z * jsstring)) :
  forall this,
    existsb isAnalyst (fst (parseLines lines this)) = false ->
    Forall (fun v => v = currentIteration this) (openings lines this).
Proof.
  induction lines as [| [now line] more IH]; intros this.
  - constructor.
  - rewrite parseLines_cons. cbn [openings].
    destruct (isEmpty (trim line)); [ apply IH | ].
    destruct (parseLine now line this) as [r this' | e this'] eqn:Hrun.
    2: { destruct (parseLine_cases now line this) as (? & ? & H & _).
         congruence. }
    cbn [fst]. rewrite existsb_app. intros H.
    apply orb_false_iff in H. destruct H as [Hk Hmore].
    assert (Hr : isAnalyst r = false).
    { destruct r; try reflexivity. cbn in Hk. discriminate. }
    apply Forall_app. split.
    + destruct (opensTurn line r); repeat constructor.
    + rewrite <- (parseLine_keeps_iteration now line this this' r Hrun Hr).
      now apply IH.
Qed.

(** Claim C7.  A response carries the iteration that was current when it
    was opened.  (1) Over a whole run, the iterations of the responses
    that reach the caller are, one for one and in order, the values of
    [currentIteration] at the calls that opened them, after the iteration
    of the response open at the start if there is one.  (2) At each call,
    the response open afterwards has the iteration of the one open before,
    whether a line was appended to it or an analyst response came in,
    unless the call opened it, and then it has the iteration current at
    the call.  (3) In a run of a new parser that returns no analyst
    response, every emitted response has iteration 1. *)
Theorem iteration_fixed_at_opening :
  (forall lines this,
      map iteration (emitted lines this) =
      map iteration (pending this) ++ openings lines this)
  /\ (forall now line this res this' r r',
         parseLine now line this = Normal res this' ->
         currentResponse this = Some r ->
         currentResponse this' = Some r' ->
         (opensTurn line res = false /\ iteration r' = iteration r)
         \/ (opensTurn line res = true
             /\ iteration r' = currentIteration this))
  /\ (forall lines,
         existsb isAnalyst (fst (parseLines lines new_OutputParser)) = false ->
         Forall (fun r => iteration r = Number 1 0)
           (emitted lines new_OutputParser)).
Proof.
  split; [ | split ].
  - intros lines this. apply emitted_iterations.
  - intros now line this res this' r r' Hrun Hopen Hopen'.
    destruct (parseLine_cases now line this) as (r1 & this1 & Hrun1 & Hcase).
    rewrite Hrun in Hrun1. injection Hrun1 as <- <-.
    unfold opensTurn.
    destruct Hcase as [He | v w mid He Ha Hc Hi Ht Hin Hw
                      | m mid He Ha Hc Hi Hm | mid He Ha Hc Hi Hm].
    + left. split; [ | congruence ].
      destruct (COUNTRY_PATTERN line) eqn:Hm; [ | reflexivity ].
      apply COUNTRY_PATTERN_not_blank in Hm. congruence.
    + left. cbn in Hopen'. split; [ | congruence ].
      destruct (COUNTRY_PATTERN line); reflexivity.
    + right. rewrite Hm, Hopen. split; [ reflexivity | ].
      cbn in Hopen'. injection Hopen' as <-. reflexivity.
    + left. rewrite Hm. split; [ reflexivity | ].
      rewrite Hopen in Hopen'.
      destruct (negb (inJsonBlock mid) && negb (isSystemMessage line)).
      * cbn in Hopen'. injection Hopen' as <-. reflexivity.
      * congruence.
  - intros lines Hno.
    apply openings_without_analyst in Hno.
    pose proof (emitted_iterations lines new_OutputParser) as Hit.
    cbn [pending new_OutputParser currentResponse map app] in Hit.
    cbn [new_OutputParser currentIteration] in Hno.
    rewrite <- Hit in Hno.
    apply Forall_map in Hno. exact Hno.
Qed.

(** The claim on the three lines of scenario B, and on the call of its
    third line. *)
Lemma iteration_fixed_at_opening_witness :
  let lines := [(1%Z, str "[EU] said: Line one.");
                (2%Z, str "Line two continues.");
                (3%Z, str "[USA] said: Reply.")] in
  let r := {| country := str "EU"; message := str "Line one.";
              iteration := Number 1 0; timestamp := 1%Z |} in
  let this := with_currentResponse (Some r) new_OutputParser in
  let this' := with_currentResponse
                 (Some (opened 3%Z (str "[USA] said: Reply.")
                          {| cm_before := []; cm_name := str "USA";
                             cm_after := str " said: Reply." |} this))
                 this in
  (existsb isAnalyst (fst (parseLines lines new_OutputParser)) = false
   /\ Forall (fun r => iteration r = Number 1 0)
        (emitted lines new_OutputParser))
  /\ (parseLine 3%Z (str "[USA] said: Reply.") this = Normal (Country r) this'
      /\ ((opensTurn (str "[USA] said: Reply.") (Country r) = false
           /\ iteration (opened 3%Z (str "[USA] said: Reply.")
                           {| cm_before := []; cm_name := str "USA";
                              cm_after := str " said: Reply." |} this)
              = iteration r)
          \/ (opensTurn (str "[USA] said: Reply.") (Country r) = true
              /\ iteration (opened 3%Z (str "[USA] said: Reply.")
                              {| cm_before := []; cm_name := str "USA";
                                 cm_after := str " said: Reply." |} this)
                 = currentIteration this))).
Proof.
  intros lines r this this'.
  split.
  - split; [ vm_compute; reflexivity | ].
    apply (proj2 (proj2 iteration_fixed_at_opening) lines).
    vm_compute; reflexivity.
  - split; [ vm_compute; reflexivity | ].
    apply (proj1 (proj2 iteration_fixed_at_opening) 3%Z
             (str "[USA] said: Reply.") this (Country r) this' r).
    + vm_compute; reflexivity.
    + reflexivity.
    + reflexivity.
Defined.

(* ------------------------------------------------------------------ *)
(** ** The country of a response *)

(** A call keeps the country of the open response canonical, and returns
    no other response than the one that was open. *)
Lemma parseLine_canonical (now : Z) (line : jsstring)
  (this this' : OutputParser) (res : response) :
  parseLine now line this = Normal res this' ->
  Forall canonicalCountry (pending this) ->
  Forall canonicalCountry (countries (kept res))
  /\ Forall canonicalCountry (pending this').
Proof.
  intros Hrun Hinv.
  destruct (parseLine_cases now line this) as (r1 & this1 & Hrun1 & Hcase).
  rewrite Hrun in Hrun1. injection Hrun1 as <- <-.
  unfold pending in *.
  destruct Hcase as [He | v w mid He Ha Hc Hi Ht Hin Hw
                    | m mid He Ha Hc Hi Hm | mid He Ha Hc Hi Hm].
  - split; [ constructor | exact Hinv ].
  - split; [ constructor | ]. cbn. now rewrite Hc.
  - split.
    + destruct (currentResponse this); [ exact Hinv | constructor ].
    + cbn. constructor; [ | constructor ].
      exact (normalizeCountryName_marker line m Hm).
  - split; [ constructor | ].
    destruct (currentResponse this) as [r |] eqn:Hopen.
    + destruct (negb (inJsonBlock mid) && negb (isSystemMessage line)).
      * cbn. constructor; [ | constructor ]. now inversion Hinv.
      * now rewrite Hc.
    + now rewrite Hc.
Qed.

Lemma emitted_canonical (lines : list (Z * jsstring)) :
  forall this,
    Forall canonicalCountry (pending this) ->
    Forall canonicalCountry (emitted lines this).
Proof.
  unfold emitted.
  induction lines as [| [now line] more IH]; intros this Hinv.
  - cbn. now rewrite finalized_pending.
  - rewrite parseLines_cons.
    destruct (isEmpty (trim line)); [ now apply IH | ].
    destruct (parseLine now line this) as [r this' | e this'] eqn:Hrun.
    2: { destruct (parseLine_cases now line this) as (? & ? & H & _).
         congruence. }
    destruct (parseLine_canonical now line this this' r Hrun Hinv)
      as [Hout Hinv'].
    cbn [fst snd]. rewrite countries_app, <- app_assoc.
    apply Forall_app. split; [ exact Hout | now apply IH ].
Qed.

(** Claim C8.  Whatever lines a new parser is fed, every country response
    that reaches the caller, from [parseLine] or from [finalize], has one
    of the four identifiers USA, China, Russia, EU as its country. *)
Theorem emitted_country_canonical (lines : list (Z * jsstring)) :
  Forall (fun r => In (country r)
                     [str "USA"; str "China"; str "Russia"; str "EU"])
    (emitted lines new_OutputParser).
Proof.
  apply (emitted_canonical lines new_OutputParser). constructor.
Qed.

(* ------------------------------------------------------------------ *)
(** ** A JSON document on one line *)

(** In the block of a document that parses, no call returns an analyst
    response; the block goes on, or ends with the buffer dropped. *)
Lemma parseLine_inBlockOf (doc : jsstring) (v : value) (now : Z)
  (line : jsstring) (this : OutputParser) :
  startsWith (str "{") doc = true ->
  JSON_parse doc = inr v ->
  inBlockOf doc this ->
  exists res this',
    parseLine now line this = Normal res this'
    /\ isAnalyst res = false
    /\ (inBlockOf doc this'
        \/ (inJsonBlock this' = false /\ jsonBuffer this' = [])).
Proof.
  intros Hbrace Hdoc [Hin Hbuf].
  destruct (isEmpty (trim line)) eqn:He.
  { rewrite (parseLine_blank now line this He).
    exists NoResult, this. repeat split; auto. left. split; assumption. }
  destruct (trim line) as [| c' y'] eqn:Htrim; [ discriminate | ].
  pose proof (trim_head line c' y' Htrim) as Hc'.
  assert (Hnext : exists c y,
             jsonBuffer this ++ 10%N :: c' :: y' = doc ++ 10%N :: c :: y
             /\ isWhiteSpace c = false).
  { destruct Hbuf as [-> | (c & y & -> & Hc)].
    - exists c', y'. auto.
    - exists c, (y ++ 10%N :: c' :: y'). split; [ | exact Hc ].
      now rewrite <- app_assoc. }
  destruct Hnext as (c & y & Hnext & Hc).
  pose proof (JSON_parse_trailing doc v c y Hbrace Hdoc
                (is_ws_isWhiteSpace c Hc)) as Hfail.
  rewrite <- Hnext in Hfail.
  pose proof (tryParseAnalystJson_inside_failure (c' :: y') this
                SyntaxError Hin Hfail) as Ha.
  rewrite <- Htrim in Ha.
  rewrite (parseLine_country now line this _ Null
             ltac:(now rewrite Htrim) Ha eq_refl).
  match type of Ha with
  | _ = Normal Null ?mid =>
      destruct (tryParseCountryResponse_json now line mid)
        as (r & this' & Hrun & Hb & Hi);
      rewrite Hrun, Htrim in *
  end.
  exists (match r with Some r0 => Country r0 | None => NoResult end), this'.
  split; [ destruct r; reflexivity | ].
  split; [ destruct r; reflexivity | ].
  unfold inBlockOf. rewrite Hb, Hi.
  match goal with
  | |- context [if ?b then _ else _] => destruct b
  end.
  - right. split; reflexivity.
  - left. split; [ reflexivity | ]. right. exists c, y. auto.
Qed.

Lemma feedBlock_inBlockOf (doc : jsstring) (v : value)
  (lines : list (Z * jsstring)) :
  startsWith (str "{") doc = true ->
  JSON_parse doc = inr v ->
  forall this,
    inBlockOf doc this ->
    existsb isAnalyst (feedBlock lines this) = false.
Proof.
  intros Hbrace Hdoc.
  induction lines as [| [now line] more IH]; intros this Hinv.
  - reflexivity.
  - cbn [feedBlock].
    destruct (parseLine_inBlockOf doc v now line this Hbrace Hdoc Hinv)
      as (res & this' & -> & Hres & [Hinv' | [Hout _]]).
    + cbn [existsb]. rewrite Hres. destruct Hinv' as [Hin ?].
      rewrite Hin. apply IH. split; assumption.
    + cbn [existsb]. now rewrite Hres, Hout.
Qed.

(** Claim C9, as the code has it.  A line whose trimmed text starts with a
    brace, fed outside a JSON block, returns no analyst response: it opens
    the block with its trimmed text as the buffer, and returns nothing when
    it holds no marker.  When that text is by itself a document that
    parses, no later call returns an analyst response as long as the
    parser stays in this block: every later line lands after the document
    in the buffer, which then never parses. *)
Theorem one_line_json_never_emitted (now : Z) (line : jsstring)
  (this : OutputParser) :
  inJsonBlock this = false ->
  startsWith (str "{") (trim line) = true ->
  exists res this1,
    parseLine now line this = Normal res this1
    /\ isAnalyst res = false
    /\ (COUNTRY_PATTERN line = None -> res = NoResult)
    /\ inJsonBlock this1 = true
    /\ jsonBuffer this1 = trim line
    /\ forall v,
        JSON_parse (trim line) = inr v ->
        forall more, existsb isAnalyst (feedBlock more this1) = false.
Proof.
  intros Hout Hbrace.
  pose proof (startsWith_brace_not_empty _ Hbrace) as He.
  pose proof (tryParseAnalystJson_outside (trim line) this Hout) as Ha.
  rewrite Hbrace in Ha.
  rewrite (parseLine_country now line this _ Null He Ha eq_refl).
  match type of Ha with
  | _ = Normal Null ?mid =>
      destruct (tryParseCountryResponse_json now line mid)
        as (r & this1 & Hrun & Hb & Hi);
      pose proof Hrun as Hrun'; rewrite Hrun
  end.
  cbn [jsonBuffer inJsonBlock] in Hb, Hi.
  exists (match r with Some r0 => Country r0 | None => NoResult end), this1.
  split; [ destruct r; reflexivity | ].
  split; [ destruct r; reflexivity | ].
  split.
  { intros Hm.
    rewrite (tryParseCountryResponse_no_marker now line _ Hm) in Hrun'.
    injection Hrun' as <- _. reflexivity. }
  split; [ exact Hi | ].
  split; [ exact Hb | ].
  intros v Hdoc more.
  apply (feedBlock_inBlockOf (trim line) v more Hbrace Hdoc).
  split; [ exact Hi | left; exact Hb ].
Qed.

(** The amended claim at a new parser, on a complete analyst response in
    one line. *)
Lemma one_line_json_never_emitted_witness :
  let line := oneLineUpdate "test" in
  (inJsonBlock new_OutputParser = false
   /\ startsWith (str "{") (trim line) = true
   /\ JSON_parse (trim line) = inr scenarioA_update)
  /\ exists res this1,
      parseLine 1%Z line new_OutputParser = Normal res this1
      /\ isAnalyst res = false
      /\ (COUNTRY_PATTERN line = None -> res = NoResult)
      /\ inJsonBlock this1 = true
      /\ jsonBuffer this1 = trim line
      /\ forall v,
          JSON_parse (trim line) = inr v ->
          forall more, existsb isAnalyst (feedBlock more this1) = false.
Proof.
  intros line.
  split; [ repeat split; vm_compute; reflexivity | ].
  apply (one_line_json_never_emitted 1%Z line new_OutputParser).
  - reflexivity.
  - vm_compute; reflexivity.
Defined.

(** Claim C9 as stated fails where the line holds a marker: the line
    below starts with a brace, is a complete analyst response with its
    four fields, and is fed outside a JSON block while a response of China
    is open.  The call does not return nothing: it returns the response of
    China, and opens one of the USA. *)
Lemma one_line_json_with_marker_returns_response :
  let china := {| country := str "China"; message := str "A";
                  iteration := Number 1 0; timestamp := 1%Z |} in
  let this := with_currentResponse (Some china) new_OutputParser in
  let line := oneLineUpdate "[USA] objects" in
  inJsonBlock this = false
  /\ startsWith (str "{") (trim line) = true
  /\ JSON_parse (trim line)
     = inr (Obj [(str "iteration", Number 1 0);
                 (str "analysis", Str (str "[USA] objects"));
                 (str "norm_updates", Obj []);
                 (str "reasoning", Obj [])])
  /\ parseLine 2%Z line this
     = Normal (Country china)
         {| jsonBuffer := line;
            inJsonBlock := true;
            currentResponse :=
              Some {| country := str "USA";
                      message := trim (replace_COUNTRY_PATTERN line);
                      iteration := Number 1 0; timestamp := 2%Z |};
            currentIteration := Number 1 0 |}
  /\ ~ (exists this', parseLine 2%Z line this = Normal NoResult this').
Proof.
  repeat split; try (vm_compute; reflexivity).
  intros [this' H]. vm_compute in H. discriminate.
Qed.

(* ------------------------------------------------------------------ *)
(** ** Markers anywhere in the line *)



(** The line of the witness, run: the response of China is returned and
    the message of the new response keeps the text around the marker. *)
Example marker_in_mid_sentence :
  let r := {| country := str "China"; message := str "A";
              iteration := Number 1 0; timestamp := 1%Z |} in
  parseLine 2%Z (str "as we told [USA] before")
    (with_currentResponse (Some r) new_OutputParser)
  = Normal (Country r)
      (with_currentResponse
         (Some {| country := str "USA";
                  message := str "as we told  before";
                  iteration := Number 1 0; timestamp := 2%Z |})
         new_OutputParser).
Proof. vm_compute. reflexivity. Qed.

(* ------------------------------------------------------------------ *)
(** ** Blank lines, system messages and plain text *)

Lemma trimStart_all_ws (s : jsstring) :
  forallb isWhiteSpace s = true -> trimStart s = [].
Proof.
  induction s as [| c s IH]; cbn [forallb trimStart]; [ reflexivity | ].
  intros H. apply andb_prop in H. destruct H as [-> H]. auto.
Qed.

(** A string that starts with a character that is not white space keeps
    it when trimmed. *)
Lemma trim_cons (c : N) (s : jsstring) :
  isWhiteSpace c = false -> exists r, trim (c :: s) = c :: r.
Proof.
  intros Hc. unfold trim. cbn [trimStart]. rewrite Hc.
  destruct (trimEnd_split (c :: s)) as (p & Hs & Hp).
  destruct (trimEnd (c :: s)) as [| d r] eqn:He.
  - cbn [app] in Hs. subst p. cbn [forallb] in Hp.
    rewrite Hc in Hp. discriminate.
  - cbn [app] in Hs. injection Hs as <- _. eauto.
Qed.

(** The characters that a letter or a bracket of a pattern matches. *)
Lemma canonicalize_ascii (c : N) :
  (65 <= canonicalize c <= 91)%N -> (65 <= c <= 122)%N.
Proof.
  unfold canonicalize.
  destruct (N.leb_spec 97 c), (N.leb_spec c 122); cbn [andb]; lia.
Qed.

Lemma ascii_not_ws (c : N) :
  (65 <= c <= 122)%N -> isWhiteSpace c = false /\ (123 =? c)%N = false.
Proof.
  intros H. unfold isWhiteSpace.
  repeat match goal with
         | |- context [(?x <=? ?y)%N] => destruct (N.leb_spec x y)
         | |- context [(?x =? ?y)%N] => destruct (N.eqb_spec x y)
         end; cbn [andb orb]; try lia; auto.
Qed.

(** A system message starts, at its very first character, with a letter
    or a bracket. *)
Lemma isSystemMessage_head (line : jsstring) :
  isSystemMessage line = true ->
  exists c r, line = c :: r /\ (65 <= c <= 122)%N.
Proof.
  unfold isSystemMessage, systemPatterns, test_prefix_ci.
  cbn [existsb str]. destruct line as [| c r].
  { cbn. discriminate. }
  intros H. exists c, r. split; [ reflexivity | ].
  apply canonicalize_ascii.
  cbn [lit_ci] in H.
  repeat match type of H with
         | context [(canonicalize c =? ?k)%N] =>
             destruct (N.eqb_spec (canonicalize c) k) as [E | _];
             [ rewrite E; cbn; lia | ]
         end.
  cbn in H. discriminate.
Qed.

(** A system message is not blank and does not start a JSON block. *)
Lemma isSystemMessage_trim (line : jsstring) :
  isSystemMessage line = true ->
  isEmpty (trim line) = false
  /\ startsWith (str "{") (trim line) = false.
Proof.
  intros H. destruct (isSystemMessage_head line H) as (c & r & -> & Hc).
  destruct (ascii_not_ws c Hc) as [Hws Hbrace].
  destruct (trim_cons c r Hws) as (r' & ->).
  change (str "{") with [123%N]. cbn [isEmpty startsWith].
  now rewrite Hbrace.
Qed.

(** Property X1.  A line made of white space only, the empty line included, returns
    nothing and leaves the parser as it is, inside a JSON block as well. *)
Theorem blank_line_ignored (now : Z) (line : jsstring)
  (this : OutputParser) :
  forallb isWhiteSpace line = true ->
  parseLine now line this = Normal NoResult this.
Proof.
  intros H. apply parseLine_blank. unfold trim.
  now rewrite (trimStart_all_ws line H).
Qed.

Lemma blank_line_ignored_witness :
  forallb isWhiteSpace (str "  ") = true
  /\ parseLine 1%Z (str "  ") new_OutputParser
     = Normal NoResult new_OutputParser.
Proof.
  split; [ reflexivity | ].
  apply (blank_line_ignored 1%Z (str "  ") new_OutputParser). reflexivity.
Defined.

(** Property X2.  Outside a JSON block, a system message without a marker returns
    nothing and leaves the parser as it is: the line is not appended to
    the open response and does not close it. *)
Theorem system_message_suppressed (now : Z) (line : jsstring)
  (this : OutputParser) :
  inJsonBlock this = false ->
  isSystemMessage line = true ->
  COUNTRY_PATTERN line = None ->
  parseLine now line this = Normal NoResult this.
Proof.
  intros Hout Hsys Hm.
  destruct (isSystemMessage_trim line Hsys) as [He Hbrace].
  pose proof (tryParseAnalystJson_outside (trim line) this Hout) as Ha.
  rewrite Hbrace in Ha.
  rewrite (parseLine_country now line this this Null He Ha eq_refl).
  rewrite (tryParseCountryResponse_no_marker now line this Hm).
  rewrite Hsys, andb_false_r.
  destruct (currentResponse this); reflexivity.
Qed.

Lemma system_message_suppressed_witness :
  let r := {| country := str "EU"; message := str "Line one.";
              iteration := Number 1 0; timestamp := 1%Z |} in
  let this := with_currentResponse (Some r) new_OutputParser in
  (inJsonBlock this = false
   /\ isSystemMessage (str "Session started") = true
   /\ COUNTRY_PATTERN (str "Session started") = None)
  /\ parseLine 2%Z (str "Session started") this = Normal NoResult this.
Proof.
  intros r this.
  split; [ repeat split | ].
  apply (system_message_suppressed 2%Z (str "Session started") this);
    reflexivity.
Defined.

(** A line of plain text outside a JSON block, with a response open. *)
Lemma parseLine_plain (now : Z) (line : jsstring)
  (this : OutputParser) (r : CountryResponse) :
  inJsonBlock this = false ->
  currentResponse this = Some r ->
  plainLine line = true ->
  parseLine now line this =
  Normal NoResult
    {| jsonBuffer := jsonBuffer this;
       inJsonBlock := false;
       currentResponse :=
         Some {| country := country r;
                 message := message r ++ 10%N :: trim line;
                 iteration := iteration r;
                 timestamp := timestamp r |};
       currentIteration := currentIteration this |}.
Proof.
  intros Hout Hopen Hplain. unfold plainLine in Hplain.
  repeat (apply andb_prop in Hplain; destruct Hplain as [Hplain ?]).
  destruct (COUNTRY_PATTERN line) eqn:Hm; [ discriminate | ].
  repeat match goal with
         | H : negb _ = true |- _ => apply negb_true_iff in H
         end.
  pose proof (tryParseAnalystJson_outside (trim line) this Hout) as Ha.
  match goal with
  | H : startsWith _ _ = false |- _ => rewrite H in Ha
  end.
  rewrite (parseLine_country now line this this Null Hplain Ha eq_refl).
  rewrite (tryParseCountryResponse_no_marker now line this Hm).
  rewrite Hopen, Hplain, Hout.
  match goal with
  | H : isSystemMessage _ = false |- _ => rewrite H
  end.
  cbn [negb andb]. unfold with_currentResponse, continued.
  now rewrite Hout.
Qed.

(** Property X3.  Outside a JSON block, a line of plain text returns nothing and
    is appended, trimmed and after a line feed, to the message of the open
    response; nothing else of the parser changes. *)
Theorem plain_line_appended (now : Z) (line : jsstring)
  (this : OutputParser) (r : CountryResponse) :
  inJsonBlock this = false ->
  currentResponse this = Some r ->
  plainLine line = true ->
  parseLine now line this =
  Normal NoResult
    {| jsonBuffer := jsonBuffer this;
       inJsonBlock := false;
       currentResponse :=
         Some {| country := country r;
                 message := message r ++ 10%N :: trim line;
                 iteration := iteration r;
                 timestamp := timestamp r |};
       currentIteration := currentIteration this |}.
Proof.
  apply parseLine_plain.
Qed.

Lemma plain_line_appended_witness :
  let r := {| country := str "EU"; message := str "Line one.";
              iteration := Number 1 0; timestamp := 1%Z |} in
  let this := with_currentResponse (Some r) new_OutputParser in
  let line := str "  Line two continues. " in
  (inJsonBlock this = false /\ currentResponse this = Some r
   /\ plainLine line = true)
  /\ parseLine 2%Z line this =
     Normal NoResult
       {| jsonBuffer := jsonBuffer this;
          inJsonBlock := false;
          currentResponse :=
            Some {| country := country r;
                    message := message r ++ 10%N :: trim line;
                    iteration := iteration r;
                    timestamp := timestamp r |};
          currentIteration := currentIteration this |}.
Proof.
  intros r this line.
  split; [ repeat split | ].
  apply (plain_line_appended 2%Z line this r); reflexivity.
Defined.

(** Property X4.  A system pattern is looked for at the first character of the
    line as it came, not of the trimmed line: a line that starts with white
    space is never a system message.  Fed outside a JSON block while a
    response is open, such a line, if it is not blank, has no marker and
    does not start a JSON block, is appended to the message like any
    text. *)
Theorem indented_system_message_appended (now : Z) (c : N)
  (rest : jsstring) (this : OutputParser) (r : CountryResponse) :
  isWhiteSpace c = true ->
  inJsonBlock this = false ->
  currentResponse this = Some r ->
  isEmpty (trim (c :: rest)) = false ->
  COUNTRY_PATTERN (c :: rest) = None ->
  startsWith (str "{") (trim (c :: rest)) = false ->
  isSystemMessage (c :: rest) = false
  /\ parseLine now (c :: rest) this =
     Normal NoResult
       (with_currentResponse (Some (continued (c :: rest) r)) this).
Proof.
  intros Hc Hout Hopen He Hm Hbrace.
  assert (Hsys : isSystemMessage (c :: rest) = false).
  { destruct (isSystemMessage (c :: rest)) eqn:Hs; [ | reflexivity ].
    destruct (isSystemMessage_head _ Hs) as (c' & r' & Heq & Hc').
    injection Heq as <- _.
    destruct (ascii_not_ws c Hc') as [Hws _]. congruence. }
  split; [ exact Hsys | ].
  assert (Hplain : plainLine (c :: rest) = true).
  { unfold plainLine. now rewrite He, Hm, Hsys, Hbrace. }
  rewrite (parseLine_plain now (c :: rest) this r Hout Hopen Hplain).
  unfold with_currentResponse, continued. now rewrite Hout.
Qed.

Lemma indented_system_message_appended_witness :
  let r := {| country := str "EU"; message := str "Line one.";
              iteration := Number 1 0; timestamp := 1%Z |} in
  let this := with_currentResponse (Some r) new_OutputParser in
  (isWhiteSpace 32 = true
   /\ inJsonBlock this = false
   /\ currentResponse this = Some r
   /\ isEmpty (trim (32%N :: str "Session started")) = false
   /\ COUNTRY_PATTERN (32%N :: str "Session started") = None
   /\ startsWith (str "{") (trim (32%N :: str "Session started")) = false)
  /\ isSystemMessage (32%N :: str "Session started") = false
  /\ parseLine 2%Z (32%N :: str "Session started") this =
     Normal NoResult
       (with_currentResponse
          (Some (continued (32%N :: str "Session started") r)) this).
Proof.
  intros r this.
  split; [ repeat split | ].
  apply (indented_system_message_appended 2%Z 32%N (str "Session started")
           this r); reflexivity.
Defined.

(** Property X5.  Outside a JSON block and with no response open, a line without a
    marker that does not start a JSON block returns nothing and leaves the
    parser as it is: text before the first marker is dropped. *)
Theorem stray_text_dropped (now : Z) (line : jsstring)
  (this : OutputParser) :
  inJsonBlock this = false ->
  currentResponse this = None ->
  COUNTRY_PATTERN line = None ->
  startsWith (str "{") (trim line) = false ->
  parseLine now line this = Normal NoResult this.
Proof.
  intros Hout Hnone Hm Hbrace.
  destruct (isEmpty (trim line)) eqn:He.
  { now apply parseLine_blank. }
  pose proof (tryParseAnalystJson_outside (trim line) this Hout) as Ha.
  rewrite Hbrace in Ha.
  rewrite (parseLine_country now line this this Null He Ha eq_refl).
  rewrite (tryParseCountryResponse_no_marker now line this Hm).
  now rewrite Hnone.
Qed.

Lemma stray_text_dropped_witness :
  (inJsonBlock new_OutputParser = false
   /\ currentResponse new_OutputParser = None
   /\ COUNTRY_PATTERN (str "Preamble of the agent") = None
   /\ startsWith (str "{") (trim (str "Preamble of the agent")) = false)
  /\ parseLine 1%Z (str "Preamble of the agent") new_OutputParser
     = Normal NoResult new_OutputParser.
Proof.
  split; [ repeat split | ].
  apply (stray_text_dropped 1%Z (str "Preamble of the agent")
           new_OutputParser); reflexivity.
Defined.

(* ------------------------------------------------------------------ *)
(** ** Runs of lines *)

(** Property X6.  Lines of plain text fed one after the other, outside a JSON block
    and while a response is open, return nothing and add up in its
    message: afterwards the message is the one before followed by each
    line, trimmed and after a line feed, in order.  Country, iteration and
    timestamp stay, and so does the rest of the parser. *)
Theorem plain_lines_accumulate (lines : list (Z * jsstring)) :
  forall (this : OutputParser) (r : CountryResponse),
    inJsonBlock this = false ->
    currentResponse this = Some r ->
    forallb (fun l => plainLine (snd l)) lines = true ->
    parseLines lines this =
    ([],
     {| jsonBuffer := jsonBuffer this;
        inJsonBlock := false;
        currentResponse :=
          Some {| country := country r;
                  message :=
                    message r
                    ++ flat_map (fun l => 10%N :: trim (snd l)) lines;
                  iteration := iteration r;
                  timestamp := timestamp r |};
        currentIteration := currentIteration this |}).
Proof.
  induction lines as [| [now line] more IH]; intros this r Hout Hopen Hall.
  - cbn. rewrite app_nil_r. destruct this, r. cbn in *. now subst.
  - cbn [forallb snd] in Hall. apply andb_prop in Hall.
    destruct Hall as [Hplain Hmore].
    rewrite parseLines_cons.
    assert (He : isEmpty (trim line) = false).
    { unfold plainLine in Hplain.
      destruct (isEmpty (trim line)); [ discriminate | reflexivity ]. }
    rewrite He, (parseLine_plain now line this r Hout Hopen Hplain).
    match goal with
    | |- context [parseLines more ?s] =>
        rewrite (IH s _ eq_refl eq_refl Hmore)
    end.
    cbn [kept app fst snd jsonBuffer currentIteration country message
         iteration timestamp flat_map].
    now rewrite <- app_assoc.
Qed.

Lemma plain_lines_accumulate_witness :
  let r := {| country := str "EU"; message := str "Line one.";
              iteration := Number 1 0; timestamp := 1%Z |} in
  let this := with_currentResponse (Some r) new_OutputParser in
  let lines := [(2%Z, str "Line two."); (3%Z, str " Line three.")] in
  (inJsonBlock this = false /\ currentResponse this = Some r
   /\ forallb (fun l => plainLine (snd l)) lines = true)
  /\ parseLines lines this =
     ([],
      {| jsonBuffer := jsonBuffer this;
         inJsonBlock := false;
         currentResponse :=
           Some {| country := country r;
                   message :=
                     message r
                     ++ flat_map (fun l => 10%N :: trim (snd l)) lines;
                   iteration := iteration r;
                   timestamp := timestamp r |};
         currentIteration := currentIteration this |}).
Proof.
  intros r this lines.
  split; [ repeat split | ].
  apply (plain_lines_accumulate lines this r); reflexivity.
Defined.

(** The loop of the caller over two lists of lines. *)
Lemma parseLines_app (l1 l2 : list (Z * jsstring)) :
  forall this,
    parseLines (l1 ++ l2) this =
    (fst (parseLines l1 this)
     ++ fst (parseLines l2 (snd (parseLines l1 this))),
     snd (parseLines l2 (snd (parseLines l1 this)))).
Proof.
  induction l1 as [| [now line] more IH]; intros this.
  - cbn [app parseLines fst snd]. now destruct (parseLines l2 this).
  - cbn [app]. rewrite !parseLines_cons.
    destruct (isEmpty (trim line)); [ apply IH | ].
    destruct (parseLine now line this) as [r this' | e this'];
      [ | apply IH ].
    rewrite IH. cbn [fst snd]. now rewrite app_assoc.
Qed.

(** A text has a first piece. *)
Lemma split_cons (a : jsstring) : exists piece more, split a = piece :: more.
Proof.
  induction a as [| c a (piece & more & IH)]; cbn [split]; [ eauto | ].
  destruct (c =? 10)%N; [ eauto | ]. rewrite IH. eauto.
Qed.

(** The pieces of two texts joined by a line feed. *)
Lemma split_app (a b : jsstring) :
  split (a ++ 10%N :: b) = split a ++ split b.
Proof.
  induction a as [| c a IH]; cbn [app split].
  - reflexivity.
  - destruct (c =? 10)%N; [ now rewrite IH | ].
    rewrite IH. destruct (split_cons a) as (piece & more & ->).
    reflexivity.
Qed.

Lemma stamp_app (clock : nat -> Z) (l1 l2 : list jsstring) :
  forall first,
    stamp clock first (l1 ++ l2) =
    stamp clock first l1 ++ stamp clock (first + length l1) l2.
Proof.
  induction l1 as [| l l1 IH]; intros first; cbn [app stamp length].
  - now rewrite Nat.add_0_r.
  - rewrite IH. now rewrite Nat.add_succ_r.
Qed.

(** Property X7.  A text cut at a line feed can be fed in two chunks: the records
    of the lines of [a], a line feed and [b] are those of the lines of [a]
    followed by those of the lines of [b] fed to the parser as the lines of
    [a] left it, and the parser ends in the same state. *)
Theorem chunks_at_line_feed (clock : nat -> Z) (a b : jsstring)
  (this : OutputParser) :
  let first := parseLines (stamp clock 0 (split a)) this in
  let second :=
    parseLines (stamp clock (length (split a)) (split b)) (snd first) in
  parseLines (stamp clock 0 (split (a ++ 10%N :: b))) this
  = (fst first ++ fst second, snd second).
Proof.
  cbv zeta. rewrite split_app, stamp_app, parseLines_app. reflexivity.
Qed.

(** The handler of stdout returns normally: nothing it calls throws. *)
Lemma onStdoutData_parseLines (lines : list (Z * jsstring)) :
  forall this,
    onStdoutData lines this =
    Normal (fst (parseLines lines this)) (snd (parseLines lines this)).
Proof.
  induction lines as [| [now line] more IH]; intros this.
  - reflexivity.
  - rewrite parseLines_cons. cbn [onStdoutData].
    destruct (isEmpty (trim line)); [ apply IH | ].
    destruct (parseLine_cases now line this) as (r & this' & Hrun & _).
    unfold bind at 1. rewrite Hrun. unfold bind at 1. rewrite IH.
    cbn [fst snd]. unfold ret. destruct r; reflexivity.
Qed.


(** Property X9.  [finalize] returns the open response once.  Called twice in a
    row, it returns the open response, if there is one, and then null; the
    parser is left without an open response, and with its JSON block and
    its iteration as they were: an unfinished block is not closed. *)
Theorem finalize_twice (this : OutputParser) :
  (first <- finalize ;; second <- finalize ;; ret (first, second)) this
  = Normal (currentResponse this, None)
      {| jsonBuffer := jsonBuffer this;
         inJsonBlock := inJsonBlock this;
         currentResponse := None;
         currentIteration := currentIteration this |}.
Proof.
  unfold finalize. msimpl.
  destruct this as [buf blk [r |] it]; reflexivity.
Qed.

(* ------------------------------------------------------------------ *)
(** ** The JSON block *)

(** What [validateAnalyst] does with the value the buffer parses to. *)
Lemma validateAnalyst_parsed (this : OutputParser) (v : value) :
  JSON_parse (jsonBuffer this) = inr v ->
  validateAnalyst this =
  if isAnalystResponse v then Normal (Some v) (resetJson this)
  else
    match getProp v (str "iteration") with
    | inl e => Throws e this
    | inr _ => Normal None this
    end.
Proof.
  intros Hparse. unfold validateAnalyst, isAnalystResponse, fieldOf. msimpl.
  rewrite Hparse. msimpl.
  destruct (getProp v (str "iteration")) as [e | w] eqn:Hit; msimpl;
    [ reflexivity | ].
  assert (Hobj : forall key, exists x, getProp v key = inr x).
  { intros key. destruct v; cbn in Hit |- *; try discriminate; eauto.
    destruct (lookup key members); eauto. }
  destruct (Hobj (str "analysis")) as [a Ha].
  destruct (Hobj (str "norm_updates")) as [n Hn].
  destruct (Hobj (str "reasoning")) as [r Hr].
  change (str "analysis") with (str "analysis") in Ha.
  rewrite Ha, Hn, Hr. msimpl.
  destruct w; try reflexivity;
    destruct (truthy a), (truthy n), (truthy r); reflexivity.
Qed.

(** [tryParseAnalystJson] inside a block, case by case: the braces do not
    balance; they do and the buffer does not parse; it parses to a valid
    analyst response; it parses to something else. *)
Lemma tryParseAnalystJson_inside (line : jsstring) (this : OutputParser) :
  inJsonBlock this = true ->
  let buffer := jsonBuffer this ++ 10%N :: line in
  let appended := {| jsonBuffer := buffer;
                     inJsonBlock := true;
                     currentResponse := currentResponse this;
                     currentIteration := currentIteration this |} in
  tryParseAnalystJson line this =
  if balanced buffer then
    match JSON_parse buffer with
    | inl _ => Normal Null (resetJson this)
    | inr v =>
        if isAnalystResponse v then Normal v (resetJson this)
        else
          match getProp v (str "iteration") with
          | inl _ => Normal Null (resetJson this)
          | inr _ => Normal Null appended
          end
    end
  else Normal Null appended.
Proof.
  intros Hin. destruct this as [buf blk cur it].
  cbn [inJsonBlock] in Hin. subst blk. cbv zeta.
  unfold tryParseAnalystJson, resetJson. msimpl.
  rewrite andb_false_r. cbn [negb].
  set (buffer := buf ++ 10%N :: line).
  change (Nat.ltb 0 (count 123 buffer)
          && Nat.eqb (count 123 buffer) (count 125 buffer))
    with (balanced buffer).
  destruct (balanced buffer); [ | reflexivity ].
  destruct (JSON_parse buffer) as [e | v] eqn:Hparse.
  - unfold validateAnalyst. msimpl. rewrite Hparse. reflexivity.
  - match goal with
    | |- context [validateAnalyst ?s] =>
        rewrite (validateAnalyst_parsed s v Hparse)
    end.
    unfold resetJson. msimpl.
    destruct (isAnalystResponse v); [ reflexivity | ].
    destruct (getProp v (str "iteration")); reflexivity.
Qed.

(** A valid analyst response is an object, and truthy. *)
Lemma isAnalystResponse_truthy (v : value) :
  isAnalystResponse v = true ->
  truthy v = true
  /\ getProp v (str "iteration") = inr (fieldOf "iteration" v)
  /\ fieldOf "iteration" v <> Undefined.
Proof.
  unfold isAnalystResponse, fieldOf.
  destruct (getProp v (str "iteration")) as [e | w] eqn:Hit;
    [ discriminate | ].
  intros H.
  assert (Hw : w <> Undefined) by (destruct w; [ discriminate | .. ];
                                   discriminate).
  repeat split; auto.
  destruct v; cbn in Hit; try discriminate; try reflexivity;
    injection Hit as <-; now elim Hw.
Qed.

(** What a call that returns an analyst response went through. *)
Lemma parseLine_analyst_inv (now : Z) (line : jsstring)
  (this this' : OutputParser) (v : value) :
  parseLine now line this = Normal (Analyst v) this' ->
  inJsonBlock this = true
  /\ balanced (jsonBuffer this ++ 10%N :: trim line) = true
  /\ JSON_parse (jsonBuffer this ++ 10%N :: trim line) = inr v
  /\ isAnalystResponse v = true
  /\ this' = {| jsonBuffer := [];
                inJsonBlock := false;
                currentResponse := currentResponse this;
                currentIteration := fieldOf "iteration" v |}.
Proof.
  intros Hrun.
  destruct (parseLine_cases now line this) as (r & this1 & Hrun1 & Hcase).
  rewrite Hrun in Hrun1. injection Hrun1 as <- <-.
  inversion Hcase as [He | v' w mid He Ha Hc Hi Ht Hin Hw
                     | m mid He Ha Hc Hi Hm Hres | mid He Ha Hc Hi Hm];
    subst.
  2: { destruct (currentResponse this); discriminate. }
  split; [ exact Hin | ].
  pose proof (tryParseAnalystJson_inside (trim line) this Hin) as Hspec.
  cbv zeta in Hspec. rewrite Ha in Hspec.
  destruct (balanced (jsonBuffer this ++ 10%N :: trim line));
    [ | injection Hspec as -> _; discriminate ].
  split; [ reflexivity | ].
  destruct (JSON_parse (jsonBuffer this ++ 10%N :: trim line)) as [e | v0];
    [ injection Hspec as -> _; discriminate | ].
  destruct (isAnalystResponse v0) eqn:Hvalid.
  - injection Hspec as -> ->.
    split; [ reflexivity | ]. split; [ exact Hvalid | ].
    destruct (isAnalystResponse_truthy v0 Hvalid) as (_ & Hit & _).
    rewrite Hit in Hw. injection Hw as <-. reflexivity.
  - destruct (getProp v0 (str "iteration"));
      injection Hspec as -> _; discriminate.
Qed.

(** Property X10.  An analyst response is returned for the right reason only.
    When [parseLine] returns one, the parser was inside a JSON block, the
    buffer with the trimmed line appended has balanced braces and parses
    to the value returned, and this value passes the validation: an
    iteration that is not undefined, and an analysis, norm updates and a
    reasoning that are truthy.  Afterwards the buffer is empty, the block
    is left, [currentIteration] is the iteration of the response, and the
    open response is as it was. *)
Theorem analyst_response_sound (now : Z) (line : jsstring)
  (this this' : OutputParser) (v : value) :
  parseLine now line this = Normal (Analyst v) this' ->
  inJsonBlock this = true
  /\ balanced (jsonBuffer this ++ 10%N :: trim line) = true
  /\ JSON_parse (jsonBuffer this ++ 10%N :: trim line) = inr v
  /\ isAnalystResponse v = true
  /\ this' = {| jsonBuffer := [];
                inJsonBlock := false;
                currentResponse := currentResponse this;
                currentIteration := fieldOf "iteration" v |}.
Proof.
  apply parseLine_analyst_inv.
Qed.

(** The lines of scenario A up to the last one leave the parser in the
    block, and the closing brace gives the update. *)
Lemma analyst_response_sound_witness :
  let this := {| jsonBuffer :=
                   str "{" ++ 10%N :: quoted "iteration" ++ str ": 7,"
                   ++ 10%N :: quoted "analysis" ++ str ": "
                   ++ quoted "a" ++ str ","
                   ++ 10%N :: quoted "norm_updates" ++ str ": {},"
                   ++ 10%N :: quoted "reasoning" ++ str ": {}";
                 inJsonBlock := true;
                 currentResponse := None;
                 currentIteration := Number 1 0 |} in
  let v := Obj [(str "iteration", Number 7 0);
                (str "analysis", Str (str "a"));
                (str "norm_updates", Obj []);
                (str "reasoning", Obj [])] in
  let this' := {| jsonBuffer := [];
                  inJsonBlock := false;
                  currentResponse := None;
                  currentIteration := Number 7 0 |} in
  parseLine 9%Z (str "}") this = Normal (Analyst v) this'
  /\ inJsonBlock this = true
  /\ balanced (jsonBuffer this ++ 10%N :: trim (str "}")) = true
  /\ JSON_parse (jsonBuffer this ++ 10%N :: trim (str "}")) = inr v
  /\ isAnalystResponse v = true
  /\ this' = {| jsonBuffer := [];
                inJsonBlock := false;
                currentResponse := currentResponse this;
                currentIteration := fieldOf "iteration" v |}.
Proof.
  intros this v this'.
  split; [ vm_compute; reflexivity | ].
  apply (analyst_response_sound 9%Z (str "}") this this' v).
  vm_compute; reflexivity.
Defined.

(** Property X11.  Every valid analyst response is returned.  Inside a JSON block,
    a line that is not blank, after which the buffer has balanced braces
    and parses to a value that passes the validation, makes [parseLine]
    return this value, empty the buffer, leave the block and take the
    iteration of the value as [currentIteration]; the line is not looked
    at as a country response, whatever it holds. *)
Theorem analyst_response_complete (now : Z) (line : jsstring)
  (this : OutputParser) (v : value) :
  inJsonBlock this = true ->
  isEmpty (trim line) = false ->
  balanced (jsonBuffer this ++ 10%N :: trim line) = true ->
  JSON_parse (jsonBuffer this ++ 10%N :: trim line) = inr v ->
  isAnalystResponse v = true ->
  parseLine now line this =
  Normal (Analyst v)
    {| jsonBuffer := [];
       inJsonBlock := false;
       currentResponse := currentResponse this;
       currentIteration := fieldOf "iteration" v |}.
Proof.
  intros Hin He Hbal Hparse Hvalid.
  pose proof (tryParseAnalystJson_inside (trim line) this Hin) as Ha.
  cbv zeta in Ha. rewrite Hbal, Hparse, Hvalid in Ha.
  destruct (isAnalystResponse_truthy v Hvalid) as (Ht & Hit & _).
  rewrite (parseLine_analyst now line this _ v _ He Ha Ht Hit).
  reflexivity.
Qed.

Lemma analyst_response_complete_witness :
  let this := {| jsonBuffer :=
                   str "{" ++ 10%N :: quoted "iteration" ++ str ": 7,"
                   ++ 10%N :: quoted "analysis" ++ str ": "
                   ++ quoted "a" ++ str ","
                   ++ 10%N :: quoted "norm_updates" ++ str ": {},"
                   ++ 10%N :: quoted "reasoning" ++ str ": {}";
                 inJsonBlock := true;
                 currentResponse := None;
                 currentIteration := Number 1 0 |} in
  let v := Obj [(str "iteration", Number 7 0);
                (str "analysis", Str (str "a"));
                (str "norm_updates", Obj []);
                (str "reasoning", Obj [])] in
  (inJsonBlock this = true
   /\ isEmpty (trim (str "}")) = false
   /\ balanced (jsonBuffer this ++ 10%N :: trim (str "}")) = true
   /\ JSON_parse (jsonBuffer this ++ 10%N :: trim (str "}")) = inr v
   /\ isAnalystResponse v = true)
  /\ parseLine 9%Z (str "}") this =
     Normal (Analyst v)
       {| jsonBuffer := [];
          inJsonBlock := false;
          currentResponse := currentResponse this;
          currentIteration := fieldOf "iteration" v |}.
Proof.
  intros this v.
  split; [ repeat split; vm_compute; reflexivity | ].
  apply (analyst_response_complete 9%Z (str "}") this v);
    vm_compute; reflexivity.
Defined.

(** Property X12.  While the braces do not balance the block goes on.  Inside a
    JSON block, a line that is not blank and after which the braces of the
    buffer do not balance returns no analyst response; the trimmed line is
    kept in the buffer, after a line feed, and the parser stays in the
    block.  If moreover the line has no marker, the call returns nothing
    and the open response is untouched. *)
Theorem unbalanced_block_goes_on (now : Z) (line : jsstring)
  (this : OutputParser) :
  inJsonBlock this = true ->
  isEmpty (trim line) = false ->
  balanced (jsonBuffer this ++ 10%N :: trim line) = false ->
  exists res this',
    parseLine now line this = Normal res this'
    /\ isAnalyst res = false
    /\ jsonBuffer this' = jsonBuffer this ++ 10%N :: trim line
    /\ inJsonBlock this' = true
    /\ currentIteration this' = currentIteration this
    /\ (COUNTRY_PATTERN line = None ->
        res = NoResult /\ currentResponse this' = currentResponse this).
Proof.
  intros Hin He Hbal.
  pose proof (tryParseAnalystJson_inside (trim line) this Hin) as Ha.
  cbv zeta in Ha. rewrite Hbal in Ha.
  rewrite (parseLine_country now line this _ Null He Ha eq_refl).
  destruct (COUNTRY_PATTERN line) as [m |] eqn:Hm.
  - rewrite (tryParseCountryResponse_marker now line m _ Hm).
    cbn [currentResponse].
    destruct (currentResponse this);
      eexists; eexists; (split; [ reflexivity | ]);
      repeat split; try reflexivity; discriminate.
  - rewrite (tryParseCountryResponse_no_marker now line _ Hm).
    cbn [currentResponse inJsonBlock negb andb].
    rewrite andb_false_r. cbn [andb].
    destruct (currentResponse this);
      eexists; eexists; (split; [ reflexivity | ]);
      repeat split; reflexivity.
Qed.

Lemma unbalanced_block_goes_on_witness :
  let this := {| jsonBuffer := str "{";
                 inJsonBlock := true;
                 currentResponse := None;
                 currentIteration := Number 1 0 |} in
  let line := quoted "norm_updates" ++ str ": {" in
  (inJsonBlock this = true
   /\ isEmpty (trim line) = false
   /\ balanced (jsonBuffer this ++ 10%N :: trim line) = false)
  /\ exists res this',
      parseLine 2%Z line this = Normal res this'
      /\ isAnalyst res = false
      /\ jsonBuffer this' = jsonBuffer this ++ 10%N :: trim line
      /\ inJsonBlock this' = true
      /\ currentIteration this' = currentIteration this
      /\ (COUNTRY_PATTERN line = None ->
          res = NoResult /\ currentResponse this' = currentResponse this).
Proof.
  intros this line.
  split; [ repeat split | ].
  apply (unbalanced_block_goes_on 2%Z line this); reflexivity.
Defined.

(** Property X13.  The line that ends a malformed block is read as text.  Inside a
    JSON block, when the braces balance after a line and the buffer does
    not parse, the block is left before the line goes to
    [tryParseCountryResponse]: a line of plain text (the closing brace,
    for one) is appended to the message of the open response. *)
Theorem malformed_block_end_appended (now : Z) (line : jsstring)
  (this : OutputParser) (r : CountryResponse) (e : exn) :
  inJsonBlock this = true ->
  currentResponse this = Some r ->
  isEmpty (trim line) = false ->
  COUNTRY_PATTERN line = None ->
  isSystemMessage line = false ->
  balanced (jsonBuffer this ++ 10%N :: trim line) = true ->
  JSON_parse (jsonBuffer this ++ 10%N :: trim line) = inl e ->
  parseLine now line this =
  Normal NoResult
    {| jsonBuffer := [];
       inJsonBlock := false;
       currentResponse := Some (continued line r);
       currentIteration := currentIteration this |}.
Proof.
  intros Hin Hopen He Hm Hsys Hbal Hparse.
  pose proof (tryParseAnalystJson_inside (trim line) this Hin) as Ha.
  cbv zeta in Ha. rewrite Hbal, Hparse in Ha.
  rewrite (parseLine_country now line this _ Null He Ha eq_refl).
  rewrite (tryParseCountryResponse_no_marker now line _ Hm).
  cbn [resetJson currentResponse inJsonBlock].
  rewrite Hopen, He, Hsys. reflexivity.
Qed.

Lemma malformed_block_end_appended_witness :
  let r := {| country := str "EU"; message := str "Line one.";
              iteration := Number 1 0; timestamp := 1%Z |} in
  let this := {| jsonBuffer := str "{" ++ 10%N :: str "not valid json";
                 inJsonBlock := true;
                 currentResponse := Some r;
                 currentIteration := Number 1 0 |} in
  (inJsonBlock this = true
   /\ currentResponse this = Some r
   /\ isEmpty (trim (str "}")) = false
   /\ COUNTRY_PATTERN (str "}") = None
   /\ isSystemMessage (str "}") = false
   /\ balanced (jsonBuffer this ++ 10%N :: trim (str "}")) = true
   /\ JSON_parse (jsonBuffer this ++ 10%N :: trim (str "}"))
      = inl SyntaxError)
  /\ parseLine 4%Z (str "}") this =
     Normal NoResult
       {| jsonBuffer := [];
          inJsonBlock := false;
          currentResponse := Some (continued (str "}") r);
          currentIteration := currentIteration this |}.
Proof.
  intros r this.
  split; [ repeat split | ].
  apply (malformed_block_end_appended 4%Z (str "}") this r SyntaxError);
    reflexivity.
Defined.

(* ------------------------------------------------------------------ *)
(** ** The iteration and the turns of a run *)

Lemma analystIterations_app (a b : list response) :
  analystIterations (a ++ b) = analystIterations a ++ analystIterations b.
Proof.
  induction a as [| [| r | v] a IH]; cbn [app analystIterations];
    rewrite ?IH; reflexivity.
Qed.

Lemma lastOr_app (d : value) (a b : list value) :
  lastOr d (a ++ b) = lastOr (lastOr d a) b.
Proof.
  unfold lastOr. apply fold_left_app.
Qed.

(** Property X14.  [currentIteration] follows the analyst responses and nothing
    else.  After any lines, [getCurrentIteration] returns the iteration of
    the last analyst response that [parseLine] returned, and the value it
    had before the lines if none was returned; for a new parser that
    is 1. *)
Theorem iteration_follows_analyst (lines : list (Z * jsstring)) :
  forall this,
    getCurrentIteration (snd (parseLines lines this))
    = Normal
        (lastOr (currentIteration this)
           (analystIterations (fst (parseLines lines this))))
        (snd (parseLines lines this)).
Proof.
  unfold getCurrentIteration. msimpl.
  induction lines as [| [now line] more IH]; intros this.
  - reflexivity.
  - rewrite parseLines_cons.
    destruct (isEmpty (trim line)) eqn:Hblank; [ apply IH | ].
    destruct (parseLine_cases now line this) as (r & this' & Hrun & Hcase).
    rewrite Hrun. cbn [fst snd].
    rewrite analystIterations_app, lastOr_app, IH.
    f_equal. f_equal.
    destruct Hcase as [He | v w mid He Ha Hc Hi Ht Hin Hw
                      | m mid He Ha Hc Hi Hm | mid He Ha Hc Hi Hm].
    + reflexivity.
    + cbn. unfold fieldOf. now rewrite Hw.
    + cbn [with_currentResponse currentIteration]. rewrite Hi.
      destruct (currentResponse this); reflexivity.
    + cbn [kept analystIterations lastOr fold_left].
      destruct (currentResponse this); [ | exact Hi ].
      destruct (negb (inJsonBlock mid) && negb (isSystemMessage line));
        exact Hi.
Qed.

(** Property X15.  What is settled at the opening of a response reaches the caller,
    once and in order.  The country, the iteration and the timestamp of
    the responses that reach the caller, from [parseLine] and then from
    [finalize], are those of the response open at the start, if there is
    one, followed by those of the responses opened by the calls, as they
    were when opened: no opened response is lost or returned twice, and
    lines appended to a response change its message only. *)
Theorem emitted_turns (lines : list (Z * jsstring)) :
  forall this,
    map turn (emitted lines this) =
    map turn (pending this) ++ map turn (openingRecords lines this).
Proof.
  unfold emitted.
  induction lines as [| [now line] more IH]; intros this.
  - cbn. rewrite finalized_pending, app_nil_r. reflexivity.
  - rewrite parseLines_cons. cbn [openingRecords].
    destruct (isEmpty (trim line)) eqn:Hblank; [ apply IH | ].
    destruct (parseLine_cases now line this) as (r & this' & Hrun & Hcase).
    rewrite Hrun. cbn [fst snd].
    rewrite countries_app, <- app_assoc, map_app, IH.
    rewrite (map_app turn _ (openingRecords more this')).
    rewrite !app_assoc. f_equal.
    destruct Hcase as [He | v w mid He Ha Hr Hi Ht Hin Hw
                      | m mid He Ha Hr Hi Hm | mid He Ha Hr Hi Hm].
    + congruence.
    + unfold pending. cbn. rewrite Hr.
      destruct (COUNTRY_PATTERN line); cbn; now rewrite app_nil_r.
    + rewrite Hm. unfold pending. cbn [with_currentResponse currentResponse].
      destruct (currentResponse this); reflexivity.
    + rewrite Hm. unfold pending. cbn [kept countries map app].
      rewrite app_nil_r.
      destruct (currentResponse this) as [r0 |] eqn:Hc.
      * destruct (negb (inJsonBlock mid) && negb (isSystemMessage line));
          [ reflexivity | now rewrite Hr ].
      * now rewrite Hr.
Qed.

(* ------------------------------------------------------------------ *)
(** ** The message of a line with [said:] *)

Lemma trimStart_idempotent (s : jsstring) :
  trimStart (trimStart s) = trimStart s.
Proof.
  destruct (trimStart s) as [| c r] eqn:Hs; [ reflexivity | ].
  cbn [trimStart]. now rewrite (trimStart_head s c r Hs).
Qed.

Lemma dot_star_no_terminator (s : jsstring) :
  forallb (fun c => negb (isLineTerminator c)) s = true -> dot_star s = s.
Proof.
  induction s as [| c s IH]; cbn [forallb dot_star]; [ reflexivity | ].
  intros H. apply andb_prop in H. destruct H as [Hc Hs].
  apply negb_true_iff in Hc. rewrite Hc. now rewrite IH.
Qed.

(** Group 2 of SAID_PATTERN on a name in brackets followed by [ said: ]
    and a text. *)
Lemma marker_here_said (name text : jsstring) :
  In name names ->
  marker_here said_tail (91%N :: name ++ 93%N :: str " said: " ++ text)
  = Some (dot_star (trimStart text)).
Proof.
  intros [<- | [<- | [<- | [<- | []]]]]; reflexivity.
Qed.

(** Property X16.  With [said:] the text before the marker is dropped.  Let a line
    be a text without an opening bracket, a country name in brackets,
    [ said: ] and a text without a line terminator, and let it be fed
    outside a JSON block.  The call returns the open response, if there is
    one, and opens a response of that country whose message is the text
    after [said:], trimmed: nothing of what precedes the marker is kept. *)
Theorem said_line_message (now : Z) (pre name text : jsstring)
  (this : OutputParser) :
  inJsonBlock this = false ->
  In name names ->
  existsb (N.eqb 91) pre = false ->
  forallb (fun c => negb (isLineTerminator c)) text = true ->
  exists this',
    parseLine now (pre ++ 91%N :: name ++ 93%N :: str " said: " ++ text) this
    = Normal match currentResponse this with
             | Some r => Country r
             | None => NoResult
             end this'
    /\ currentResponse this'
       = Some {| country := name;
                 message := trim text;
                 iteration := currentIteration this;
                 timestamp := now |}.
Proof.
  intros Hout Hname Hpre Htext.
  set (line := pre ++ 91%N :: name ++ 93%N :: str " said: " ++ text).
  set (m := {| cm_before := pre; cm_name := name;
               cm_after := str " said: " ++ text |}).
  assert (Hm : COUNTRY_PATTERN line = Some m).
  { unfold COUNTRY_PATTERN, line.
    rewrite (search_skip _ _ pre _ Hpre). cbn [search].
    rewrite (marker_here_name name _ Hname). now rewrite app_nil_r. }
  assert (Hsaid : SAID_PATTERN line = Some (trimStart text)).
  { unfold SAID_PATTERN, line.
    rewrite (search_skip _ _ pre _ Hpre). cbn [search].
    rewrite (marker_here_said name text Hname).
    rewrite dot_star_no_terminator; [ reflexivity | ].
    destruct (trimStart_split text) as (p & Ht & _).
    rewrite Ht, forallb_app in Htext. apply andb_prop in Htext. tauto. }
  pose proof (COUNTRY_PATTERN_not_blank line m Hm) as He.
  pose proof (tryParseAnalystJson_outside (trim line) this Hout) as Ha.
  set (mid := if startsWith (str "{") (trim line)
              then {| jsonBuffer := trim line;
                      inJsonBlock := true;
                      currentResponse := currentResponse this;
                      currentIteration := currentIteration this |}
              else this) in Ha.
  assert (Hit : currentIteration mid = currentIteration this)
    by (subst mid; destruct (startsWith (str "{") (trim line)); reflexivity).
  assert (Hcur : currentResponse mid = currentResponse this)
    by (subst mid; destruct (startsWith (str "{") (trim line)); reflexivity).
  exists (with_currentResponse (Some (opened now line m mid)) mid).
  split.
  - rewrite (parseLine_country now line this mid Null He Ha eq_refl).
    rewrite (tryParseCountryResponse_marker now line m mid Hm), Hcur.
    destruct (currentResponse this); reflexivity.
  - cbn [with_currentResponse currentResponse]. unfold opened.
    rewrite Hsaid, Hit. cbn [cm_name m].
    unfold trim at 1. rewrite trimStart_idempotent. fold (trim text).
    f_equal. f_equal.
    destruct Hname as [<- | [<- | [<- | [<- | []]]]]; reflexivity.
Qed.

Lemma said_line_message_witness :
  let r := {| country := str "China"; message := str "A";
              iteration := Number 1 0; timestamp := 1%Z |} in
  let this := with_currentResponse (Some r) new_OutputParser in
  (inJsonBlock this = false
   /\ In (str "EU") names
   /\ existsb (N.eqb 91) (str "Then ") = false
   /\ forallb (fun c => negb (isLineTerminator c)) (str "We agree. ") = true)
  /\ exists this',
      parseLine 2%Z
        (str "Then " ++ 91%N :: str "EU" ++ 93%N :: str " said: "
         ++ str "We agree. ") this
      = Normal match currentResponse this with
               | Some r => Country r
               | None => NoResult
               end this'
      /\ currentResponse this'
         = Some {| country := str "EU";
                   message := trim (str "We agree. ");
                   iteration := currentIteration this;
                   timestamp := 2%Z |}.
Proof.
  intros r this.
  split; [ repeat split; cbn; auto | ].
  apply (said_line_message 2%Z (str "Then ") (str "EU") (str "We agree. ")
           this).
  - reflexivity.
  - cbn; auto.
  - reflexivity.
  - reflexivity.
Defined.

(* ------------------------------------------------------------------ *)
(** ** The arrays of parseGcpOutput *)

Lemma lookup_hasKey (key : jsstring) (members : list (jsstring * value))
  (w : value) :
  lookup key members = Some w ->
  existsb (fun m => streq (fst m) key) members = true.
Proof.
  revert w.
  induction members as [| [k v] more IH]; intros w;
    cbn [lookup existsb fst]; [ discriminate | ].
  destruct (lookup key more) as [x |].
  - intros _. rewrite (IH x eq_refl). apply orb_true_r.
  - destruct (streq k key); [ reflexivity | discriminate ].
Qed.

(** A property that is not undefined is a key of the object. *)
Lemma fieldOf_hasKey (key : string) (v : value) :
  fieldOf key v <> Undefined -> hasKey (str key) v = true.
Proof.
  unfold fieldOf, hasKey, getProp.
  destruct v; try (intros H; now elim H).
  destruct (lookup (str key) members) as [w |] eqn:Hl.
  - intros _. exact (lookup_hasKey _ _ w Hl).
  - intros H. now elim H.
Qed.

(** A valid analyst response has the two keys the caller looks for. *)
Lemma isAnalystResponse_keys (v : value) :
  isAnalystResponse v = true ->
  hasKey (str "iteration") v && hasKey (str "norm_updates") v = true.
Proof.
  intros Hvalid.
  destruct (isAnalystResponse_truthy v Hvalid) as (_ & _ & Hit).
  rewrite (fieldOf_hasKey "iteration" v Hit).
  unfold isAnalystResponse in Hvalid.
  destruct (getProp v (str "iteration")) as [e | w]; [ discriminate | ].
  assert (Hn : truthy (fieldOf "norm_updates" v) = true).
  { destruct w; try discriminate;
      repeat (apply andb_prop in Hvalid; destruct Hvalid as [Hvalid ?]);
      assumption. }
  rewrite (fieldOf_hasKey "norm_updates" v); [ reflexivity | ].
  intros E. rewrite E in Hn. discriminate.
Qed.

(** Where the caller files a record of the parser. *)
Lemma fileParsed_spec (now : Z) (line : jsstring)
  (this this' : OutputParser) (r : response) (a : arrays) :
  parseLine now line this = Normal r this' ->
  fileParsed r a =
  {| countryResponses :=
       countryResponses a ++ map FromParser (filter filedAsCountry (kept r));
     analystResponses :=
       analystResponses a ++ map FromParser (filter filedAsAnalyst (kept r))
  |}.
Proof.
  intros Hrun. destruct a as [cs ans]. destruct r as [| r | v].
  - cbn. now rewrite !app_nil_r.
  - cbn. now rewrite app_nil_r.
  - destruct (parseLine_analyst_inv now line this this' v Hrun)
      as (_ & _ & _ & Hvalid & _).
    cbn [fileParsed kept filter filedAsCountry filedAsAnalyst].
    rewrite (isAnalystResponse_keys v Hvalid).
    destruct (hasKey (str "country") v); cbn; now rewrite app_nil_r.
Qed.

Lemma fileLines_spec (lines : list (Z * jsstring)) :
  forall a this,
    fileLines lines a this =
    ({| countryResponses :=
          countryResponses a
          ++ map FromParser
               (filter filedAsCountry (fst (parseLines lines this)));
        analystResponses :=
          analystResponses a
          ++ map FromParser
               (filter filedAsAnalyst (fst (parseLines lines this))) |},
     snd (parseLines lines this)).
Proof.
  induction lines as [| [now line] more IH]; intros a this.
  - destruct a. cbn. now rewrite !app_nil_r.
  - rewrite parseLines_cons. cbn [fileLines].
    destruct (isEmpty (trim line)); [ apply IH | ].
    destruct (parseLine now line this) as [r this' | e this'] eqn:Hrun;
      [ | apply IH ].
    rewrite IH, (fileParsed_spec now line this this' r a Hrun).
    cbn [fst snd countryResponses analystResponses].
    now rewrite !filter_app, !map_app, !app_assoc.
Qed.

(** The loop keeps no null. *)
Lemma parseLines_kept (lines : list (Z * jsstring)) :
  forall this, Forall (fun r => r <> NoResult) (fst (parseLines lines this)).
Proof.
  induction lines as [| [now line] more IH]; intros this.
  - constructor.
  - rewrite parseLines_cons.
    destruct (isEmpty (trim line)); [ apply IH | ].
    destruct (parseLine now line this) as [r this' | e this'];
      [ | apply IH ].
    cbn [fst]. apply Forall_app. split; [ | apply IH ].
    destruct r; repeat constructor; discriminate.
Qed.



(* ------------------------------------------------------------------ *)
(** ** formatMessage *)

(** The lazy dot-star runs over a label up to its closing bracket. *)
Lemma afterBracket_label (label rest : jsstring) :
  forallb inLabel label = true ->
  afterBracket (label ++ 93%N :: rest) = Some rest.
Proof.
  induction label as [| c label IH]; cbn [forallb app afterBracket].
  - intros _. reflexivity.
  - unfold inLabel at 1. intros H. apply andb_prop in H.
    destruct H as [Hc Hl]. apply andb_prop in Hc. destruct Hc as [Hb Ht].
    apply negb_true_iff in Hb, Ht. rewrite Hb, Ht. exact (IH Hl).
Qed.

(** What [afterBracket] returns is the end of the text. *)
Lemma afterBracket_suffix (s r : jsstring) :
  afterBracket s = Some r -> exists p, s = p ++ r /\ existsb (N.eqb 93) s = true.
Proof.
  induction s as [| c s IH]; cbn [afterBracket existsb]; [ discriminate | ].
  rewrite (N.eqb_sym 93 c).
  destruct (c =? 93)%N.
  - intros H. injection H as <-. exists [c]. auto.
  - destruct (isLineTerminator c); [ discriminate | ].
    intros H. destruct (IH H) as (p & -> & Hex).
    exists (c :: p). auto.
Qed.

(** [formatMessage] on a label in brackets followed by [ said: ]. *)
Lemma formatMessage_label_said (label text : jsstring) :
  forallb inLabel label = true ->
  formatMessage (91%N :: label ++ 93%N :: str " said: " ++ text)
  = trimStart text.
Proof.
  intros Hlabel. unfold formatMessage. rewrite N.eqb_refl.
  rewrite (afterBracket_label label _ Hlabel). reflexivity.
Qed.

(** Property X18.  [formatMessage] removes a bracketed label at the start of a
    message, whatever the label, with [said:] and the white space around
    it: for a label without a closing bracket and without a line
    terminator, the message made of the label in brackets, [ said: ] and
    a text is shown as the text, without its leading white space.  The
    label need not be a country. *)
Theorem formatMessage_removes_label (label text : jsstring) :
  forallb inLabel label = true ->
  formatMessage (91%N :: label ++ 93%N :: str " said: " ++ text)
  = trimStart text.
Proof.
  apply formatMessage_label_said.
Qed.

Lemma formatMessage_removes_label_witness :
  forallb inLabel (str "Translated") = true
  /\ formatMessage (91%N :: str "Translated" ++ 93%N :: str " said: "
                    ++ str " We agree.")
     = trimStart (str " We agree.").
Proof.
  split; [ reflexivity | ].
  apply (formatMessage_removes_label (str "Translated") (str " We agree.")).
  reflexivity.
Defined.

(** Property X19.  [formatMessage] only ever removes a prefix: the message shown is
    the end of the message given.  It differs from it only when the
    message starts with an opening bracket that a closing bracket
    follows. *)
Theorem formatMessage_removes_prefix_only (message : jsstring) :
  (exists p, message = p ++ formatMessage message)
  /\ (formatMessage message <> message ->
      exists s, message = 91%N :: s /\ existsb (N.eqb 93) s = true).
Proof.
  unfold formatMessage.
  destruct message as [| c s].
  { split; [ exists []; reflexivity | intros H; now elim H ]. }
  destruct (N.eqb_spec c 91) as [-> | Hc].
  2: { split; [ exists []; reflexivity | intros H; now elim H ]. }
  destruct (afterBracket s) as [r |] eqn:Ha.
  2: { split; [ exists []; reflexivity | intros H; now elim H ]. }
  destruct (afterBracket_suffix s r Ha) as (p & -> & Hex).
  split; [ | intros _; eauto ].
  destruct (trimStart_split r) as (q & Hr & _).
  destruct (lit_ci (str "said:") (trimStart r)) as [[m r'] |] eqn:Hl.
  - destruct (lit_ci_split _ _ _ _ Hl) as [Hs _].
    destruct (trimStart_split r') as (q' & Hr' & _).
    exists (91%N :: p ++ q ++ m ++ q').
    rewrite Hr at 1. rewrite Hs. rewrite Hr' at 1.
    cbn [app]. now rewrite <- !app_assoc.
  - exists (91%N :: p ++ q). rewrite Hr at 1.
    cbn [app]. now rewrite <- !app_assoc.
Qed.

(** The message the parser gives to a line with [said:]. *)
Lemma SAID_PATTERN_said_line (pre name text : jsstring) :
  In name names ->
  existsb (N.eqb 91) pre = false ->
  forallb (fun c => negb (isLineTerminator c)) text = true ->
  SAID_PATTERN (pre ++ 91%N :: name ++ 93%N :: str " said: " ++ text)
  = Some (trimStart text).
Proof.
  intros Hname Hpre Htext. unfold SAID_PATTERN.
  rewrite (search_skip _ _ pre _ Hpre). cbn [search].
  rewrite (marker_here_said name text Hname).
  rewrite dot_star_no_terminator; [ reflexivity | ].
  destruct (trimStart_split text) as (p & Ht & _).
  rewrite Ht, forallb_app in Htext. apply andb_prop in Htext. tauto.
Qed.

(** Property X20.  The display and the parser agree on a line with [said:].  For a
    line made of a country name in brackets, [ said: ] and a text without
    a line terminator, [formatMessage] applied to the line as it came
    gives, once trimmed, the message that the parser stores for the
    line. *)
Theorem formatMessage_agrees_with_parser (now : Z) (name text : jsstring)
  (this : OutputParser) :
  In name names ->
  forallb (fun c => negb (isLineTerminator c)) text = true ->
  let line := 91%N :: name ++ 93%N :: str " said: " ++ text in
  exists m,
    COUNTRY_PATTERN line = Some m
    /\ trim (formatMessage line) = message (opened now line m this).
Proof.
  intros Hname Htext line.
  exists {| cm_before := []; cm_name := name;
            cm_after := str " said: " ++ text |}.
  split.
  - unfold COUNTRY_PATTERN, line. cbn [search].
    now rewrite (marker_here_name name _ Hname).
  - unfold opened. cbn [message].
    change line with ([] ++ line). unfold line.
    rewrite (SAID_PATTERN_said_line [] name text Hname eq_refl Htext).
    cbn [app]. rewrite formatMessage_label_said; [ reflexivity | ].
    destruct Hname as [<- | [<- | [<- | [<- | []]]]]; reflexivity.
Qed.

Lemma formatMessage_removes_prefix_only_witness :
  formatMessage (str "[EU] We agree.") <> str "[EU] We agree."
  /\ exists s, str "[EU] We agree." = 91%N :: s
               /\ existsb (N.eqb 93) s = true.
Proof.
  assert (H : formatMessage (str "[EU] We agree.") <> str "[EU] We agree.")
    by (vm_compute; discriminate).
  split; [ exact H | ].
  exact (proj2 (formatMessage_removes_prefix_only (str "[EU] We agree.")) H).
Defined.

Lemma formatMessage_agrees_with_parser_witness :
  let line := 91%N :: str "EU" ++ 93%N :: str " said: " ++ str " We agree. "
  in
  (In (str "EU") names
   /\ forallb (fun c => negb (isLineTerminator c)) (str " We agree. ") = true)
  /\ exists m,
      COUNTRY_PATTERN line = Some m
      /\ trim (formatMessage line)
         = message (opened 1%Z line m new_OutputParser).
Proof.
  intros line.
  split; [ split; [ cbn; auto | reflexivity ] | ].
  apply (formatMessage_agrees_with_parser 1%Z (str "EU") (str " We agree. ")
           new_OutputParser).
  - cbn; auto.
  - reflexivity.
Defined.

(* ------------------------------------------------------------------ *)
(** ** normalizeCountryName *)

(** Property X21.  [normalizeCountryName] returns one of the four
    identifiers or, when the label is no alias, the label as it came; and
    normalizing twice is normalizing once. *)
Theorem normalizeCountryName_idempotent (name : jsstring) :
  (In (normalizeCountryName name) canonical
   \/ normalizeCountryName name = name)
  /\ normalizeCountryName (normalizeCountryName name)
     = normalizeCountryName name.
Proof.
  assert (Hcases : In (normalizeCountryName name) canonical
                   \/ normalizeCountryName name = name).
  { unfold normalizeCountryName. cbv zeta.
    repeat match goal with
           | |- context [if ?c then _ else _] =>
               destruct c; [ left; cbn; auto | ]
           end.
    now right. }
  split; [ exact Hcases | ].
  destruct Hcases as [[H | [H | [H | [H | []]]]] | H].
  - now rewrite <- H.
  - now rewrite <- H.
  - now rewrite <- H.
  - now rewrite <- H.
  - rewrite H. exact H.
Qed.
